(** * Emergency-vehicle detection: the temporal decision pipeline

    A shallow embedding of the decision part of [Paper-3/em_detection.py]:
    [predict_probability] (the sliding-window smoother over per-frame
    scores) and [predict_output] (the clip-level vote), followed by the
    parts of the script around it: [read_files], [get_data], the cutoff
    normalisation of [butter_bandpass_filter] and the evaluation that ends
    [main].

    Modelling choices.
    - The first model takes probabilities as exact rationals ([Q]):
      [np_mean] is the exact sum divided by the number of elements, and the
      mean of an empty list is numpy's [nan], written [None], which compares
      false against everything.  It carries the statements that do not
      depend on rounding.  Module [Float32] embeds the same functions with
      numpy's binary32 arithmetic, where the mean is the rounded value that
      the script compares with [th], and module [Float64] the cutoff
      normalisation of [butter_bandpass_filter] on Python floats.
    - A Python exception is a [Raise] result; the only one that the modelled
      statements produce is [IndexError] (list indexing and [list.pop]).
    - [extract_mfccs] is not defined in the script: the frame list
      [mfccs_list] is the input of the model.  [scaler.transform] is called
      for its value, which is dropped, and [load_model] with
      [model.predict(mfccs_list[i].reshape(1,12))] and [flatten] is the
      external scorer: one probability per frame, given by the section
      variable [score], taken to be total. *)

From Stdlib Require Import List ZArith QArith Lia Bool Arith.
From Stdlib Require Import Lqa.
From Stdlib Require Import SpecFloat.
Import ListNotations.

Set Implicit Arguments.

(** ** Exceptions *)

Inductive exn : Type :=
| IndexError.

Inductive result (A : Type) : Type :=
| Ok (a : A)
| Raise (e : exn).

Arguments Ok {A} a.
Arguments Raise {A} e.

Definition bind {A B : Type} (r : result A) (k : A -> result B) : result B :=
  match r with
  | Ok a => k a
  | Raise e => Raise e
  end.

Notation "x <- r ;; k" := (bind r (fun x => k))
  (at level 61, r at next level, right associativity).

(** ** Python and numpy primitives *)

(** [l[i]] on a Python list. *)
Definition getitem {A : Type} (l : list A) (i : nat) : result A :=
  match nth_error l i with
  | Some a => Ok a
  | None => Raise IndexError
  end.

(** [l.pop(0)]: the list that is left; popping an empty list raises. *)
Definition pop0 {A : Type} (l : list A) : result (list A) :=
  match l with
  | [] => Raise IndexError
  | _ :: rest => Ok rest
  end.

(** [for i in range(start, start + count): body]. *)
Fixpoint for_range {St : Type} (body : nat -> St -> result St)
    (start count : nat) (st : St) : result St :=
  match count with
  | O => Ok st
  | S c => st' <- body start st ;; for_range body (S start) c st'
  end.

Definition np_sum (l : list Q) : Q := fold_right Qplus 0 l.

(** [np.mean] in exact arithmetic: [None] stands for the [nan] numpy returns
    on an empty list.  The rounded mean numpy computes on binary32 scores is
    [Float32.np_mean]. *)
Definition np_mean (l : list Q) : option Q :=
  match l with
  | [] => None
  | _ => Some (np_sum l / inject_Z (Z.of_nat (length l)))
  end.

(** [m > t] on a possibly-[nan] mean. *)
Definition gt (m : option Q) (t : Q) : bool :=
  match m with
  | None => false
  | Some q => match q ?= t with Gt => true | _ => false end
  end.

(** ** predict_probability *)

Definition N : nat := 10.
Definition th : Q := 1 # 2.

Record locals : Type := mkLocals {
  prob_list : list Q;
  class_list : list Z
}.

Definition init : locals := mkLocals [] [].

(** The [if prob > th: class_list.append(1) else: class_list.append(0)]
    that follows each [prob = np.mean(prob_list)]. *)
Definition threshold (st : locals) : locals :=
  let prob := np_mean (prob_list st) in
  if gt prob th
  then mkLocals (prob_list st) (class_list st ++ [1%Z])
  else mkLocals (prob_list st) (class_list st ++ [0%Z]).

Section Smoother.

Variable feature : Type.
Variable score : feature -> Q.

(** Body of [for i in range(N)]. *)
Definition fill_body (mfccs_list : list feature) (i : nat) (st : locals)
    : result locals :=
  x <- getitem mfccs_list i ;;
  Ok (mkLocals (prob_list st ++ [score x]) (class_list st)).

(** Body of [for i in range(N, len(mfccs_list))]. *)
Definition slide_body (mfccs_list : list feature) (i : nat) (st : locals)
    : result locals :=
  rest <- pop0 (prob_list st) ;;
  x <- getitem mfccs_list i ;;
  Ok (threshold (mkLocals (rest ++ [score x]) (class_list st))).

Definition predict_probability (mfccs_list : list feature) : result (list Z) :=
  st <- for_range (fill_body mfccs_list) 0 N init ;;
  st <- Ok (threshold st) ;;
  st <- for_range (slide_body mfccs_list) N (length mfccs_list - N) st ;;
  Ok (class_list st).

(** The locals of [predict_probability] once [k] scores have been appended
    to [prob_list]: [k] rounds of the first loop when [k < N]; otherwise the
    whole first loop, the first decision, and [k - N] rounds of the second
    loop. *)
Definition run_upto (mfccs_list : list feature) (k : nat) : result locals :=
  if k <? N
  then for_range (fill_body mfccs_list) 0 k init
  else
    st <- for_range (fill_body mfccs_list) 0 N init ;;
    for_range (slide_body mfccs_list) N (k - N) (threshold st).

(** What [predict_probability] still does after the [k]-th push: the rest
    of the loop that was cut, whatever follows it, and the [return]. *)
Definition resume (mfccs_list : list feature) (k : nat) (st : locals)
    : result (list Z) :=
  if k <? N
  then
    st <- for_range (fill_body mfccs_list) k (N - k) st ;;
    st <- for_range (slide_body mfccs_list) N (length mfccs_list - N)
            (threshold st) ;;
    Ok (class_list st)
  else
    st <- for_range (slide_body mfccs_list) k (length mfccs_list - k) st ;;
    Ok (class_list st).

(** ** predict_output *)

(** The vote of lines 256-259 on the decision list. *)
Definition clip_vote (cl : list Z) : Z :=
  if gt (np_mean (map inject_Z cl)) (1 # 2) then 1%Z else 0%Z.

Definition predict_output (mfccs_list : list feature) : result Z :=
  cl <- predict_probability mfccs_list ;;
  Ok (clip_vote cl).

(** ** Reading the run as windows over the score sequence *)

(** The scores of the [N] frames starting at frame [j]. *)
Definition window (mfccs_list : list feature) (j : nat) : list Q :=
  map score (firstn N (skipn j mfccs_list)).

(** The label the thresholding gives to a window. *)
Definition label_of (pl : list Q) : Z :=
  if gt (np_mean pl) th then 1%Z else 0%Z.

End Smoother.

(** The scripted scorer of the scenarios: the frame is its own score. *)
Definition scripted : Q -> Q := fun q => q.

(** ** The scripted scenario

    Ten frames scored [0.9] followed by ten frames scored [0.1]. *)
Definition scenario : list Q := repeat (9 # 10) 10 ++ repeat (1 # 10) 10.

(** The push (counted from 1) that produced the first [0] of a decision
    list whose first entry was produced by push number [push]. *)
Fixpoint first_nonsiren (push : nat) (cl : list Z) : option nat :=
  match cl with
  | [] => None
  | d :: rest =>
      if Z.eqb d 0 then Some push else first_nonsiren (S push) rest
  end.

(** The push at which the running decisions of a clip leave siren. *)
Definition transition_push (l : list Q) : option nat :=
  match predict_probability scripted l with
  | Ok cl => first_nonsiren N cl
  | Raise _ => None
  end.

(** Does the window after [k] pushes hold no entry equal to [q]? *)
Definition window_free_of (q : Q) (l : list Q) (k : nat) : bool :=
  match run_upto scripted l k with
  | Ok st => negb (existsb (Qeq_bool q) (prob_list st))
  | Raise _ => false
  end.

(** The first push after which the window holds no entry equal to [q]. *)
Definition first_push_free_of (q : Q) (l : list Q) : option nat :=
  find (window_free_of q l) (seq 1 (length l)).

(** * The rest of the script

    What follows embeds the parts of the script around the decision
    pipeline: the collection of training rows ([read_files], [get_data]),
    the cutoff normalisation of [butter_bandpass_filter], and the
    evaluation at the end of [main]. *)

(** Exceptions of these parts: a division by zero, an error raised by a
    library call, or an exception propagated from the decision pipeline. *)
Inductive exception : Type :=
| ZeroDivisionError
| ValueError
| Propagated (e : exn).

Inductive outcome (A : Type) : Type :=
| Done (a : A)
| Failed (e : exception).

Arguments Done {A} a.
Arguments Failed {A} e.

Definition and_then {A B : Type} (r : outcome A) (k : A -> outcome B)
    : outcome B :=
  match r with
  | Done a => k a
  | Failed e => Failed e
  end.

Notation "x <~ r ;; k" := (and_then r (fun x => k))
  (at level 61, r at next level, right associativity).

(** [a / b] on Python numbers of which one is a float, in exact arithmetic;
    the rounded division of binary64 floats is [Float64.truediv]. *)
Definition truediv (a b : Q) : outcome Q :=
  if Qeq_bool b 0 then Failed ZeroDivisionError else Done (a / b).

(** ** read_files and get_data *)

Section DataSet.

Variable file : Type.
Variable feature : Type.

(** [librosa.load], [preprocess] and [stFeatureExtraction] on one file: the
    rows that [X.extend(features)] appends for it. *)
Variable features_of : file -> list feature.

Definition read_files (files : list file) : list feature :=
  fold_left (fun X fn => X ++ features_of fn) files [].

(** The two [glob.glob] listings are the arguments. *)
Definition get_data (em_files nonem_files : list file)
    : list feature * list feature :=
  let X_em := read_files em_files in
  let N_em := length em_files in
  let X_nonem := read_files (firstn N_em nonem_files) in
  (X_em, X_nonem).

End DataSet.

(** ** butter_bandpass_filter *)

Section Filter.

Variable signal : Type.
Variable coefficients : Type.

(** [scipy.signal.butter(order, [low, high], btype='band')] and
    [scipy.signal.lfilter(b, a, data)]. *)
Variable butter : nat -> Q -> Q -> outcome coefficients.
Variable lfilter : coefficients -> signal -> outcome signal.

Definition butter_bandpass_filter (data : signal)
    (lowcut highcut fs : Q) (order : nat) : outcome signal :=
  let nyq := (1 # 2) * fs in
  low <~ truediv lowcut nyq ;;
  high <~ truediv highcut nyq ;;
  ba <~ butter order low high ;;
  lfilter ba data.

End Filter.

(** ** The evaluation at the end of main *)

Record tally : Type := mkTally {
  tot_em : Z;
  correct_em : Z;
  tot_nonem : Z;
  correct_nonem : Z
}.

(** What the last four [print] calls write. *)
Inductive line : Type :=
| CountsLine (t : tally)
| HeaderLine
| AccuracyLine (q : Q)
| PrecisionLine (q : Q)
| RecallLine (q : Q).

(** [float(a) / b] on integers. *)
Definition float_div (a b : Z) : outcome Q :=
  if Z.eqb b 0 then Failed ZeroDivisionError
  else Done (inject_Z a / inject_Z b).

(** Lines 318-323: the lines printed, and the exception that ends the
    printing, if any. *)
Definition report (t : tally) : list line * option exception :=
  let out := [CountsLine t; HeaderLine] in
  match float_div (correct_em t + correct_nonem t) (tot_em t + tot_nonem t) with
  | Failed e => (out, Some e)
  | Done a =>
      let out := out ++ [AccuracyLine a] in
      match float_div (correct_em t)
                      (tot_nonem t - correct_nonem t + correct_em t) with
      | Failed e => (out, Some e)
      | Done p =>
          let out := out ++ [PrecisionLine p] in
          match float_div (correct_em t) (tot_em t) with
          | Failed e => (out, Some e)
          | Done r => (out ++ [RecallLine r], None)
          end
      end
  end.

Section Evaluation.

Variable feature : Type.
Variable score : feature -> Q.

(** One round of a test loop on the frames of one test file:
    [classes = predict_output(y, scaler)], then
    [if classes == target: correct += 1] and [tot += 1]. *)
Definition count_clip (target : Z) (acc : Z * Z) (clip : list feature)
    : result (Z * Z) :=
  classes <- predict_output score clip ;;
  Ok ((fst acc + 1)%Z,
      if Z.eqb classes target then (snd acc + 1)%Z else snd acc).

(** [for test_file in tqdm(files)] over the frame lists of the files. *)
Fixpoint count_clips (target : Z) (acc : Z * Z) (clips : list (list feature))
    : result (Z * Z) :=
  match clips with
  | [] => Ok acc
  | clip :: rest =>
      acc' <- count_clip target acc clip ;;
      count_clips target acc' rest
  end.

(** Lines 300-323 on the frame lists of the em and non-em test files. *)
Definition main_eval (em_clips nonem_clips : list (list feature))
    : list line * option exception :=
  match count_clips 1%Z (0%Z, 0%Z) em_clips with
  | Raise e => ([], Some (Propagated e))
  | Ok em =>
      match count_clips 0%Z (0%Z, 0%Z) nonem_clips with
      | Raise e => ([], Some (Propagated e))
      | Ok nonem => report (mkTally (fst em) (snd em) (fst nonem) (snd nonem))
      end
  end.

(** Is [target] the label [predict_output] gives the clip? *)
Definition labelled (target : Z) (clip : list feature) : bool :=
  match predict_output score clip with
  | Ok v => Z.eqb v target
  | Raise _ => false
  end.

(** How many of the clips [predict_output] labels [target]. *)
Definition hits (target : Z) (clips : list (list feature)) : Z :=
  Z.of_nat (length (filter (labelled target) clips)).

End Evaluation.

(** The metric lines among the printed ones lie in [[0, 1]]. *)
Definition metric_in_unit (ln : line) : Prop :=
  match ln with
  | AccuracyLine q | PrecisionLine q | RecallLine q => 0 <= q /\ q <= 1
  | _ => True
  end.

(** * The decision pipeline in numpy's arithmetic

    [model.predict] returns binary32 values, [np.mean] sums them in binary32
    and divides by the count, and [prob > th] compares the rounded mean
    with [0.5].  [spec_float] is the standard library's IEEE 754
    specification; binary32 has precision 24 and maximal exponent 128. *)

Module Float32.

Definition prec : Z := 24%Z.
Definition emax : Z := 128%Z.

Definition add : spec_float -> spec_float -> spec_float := SFadd prec emax.
Definition div : spec_float -> spec_float -> spec_float := SFdiv prec emax.

Definition zero : spec_float := S754_zero false.

(** The binary32 value of an integer, and the binary32 value nearest to a
    fraction of two integers. *)
Definition of_Z (z : Z) : spec_float := binary_normalize prec emax z 0 false.
Definition dec (a b : Z) : spec_float := div (of_Z a) (of_Z b).

(** numpy's pairwise summation.  Fewer than 8 elements are added from left
    to right. *)
Definition sum_small (a : list spec_float) : spec_float :=
  fold_left add a zero.

(** [r[j] += a[i + j]] for [blocks] blocks of 8 elements: the accumulators
    and the elements that are left. *)
Fixpoint add_blocks (r a : list spec_float) (blocks : nat)
    : list spec_float * list spec_float :=
  match blocks with
  | O => (r, a)
  | S b =>
      add_blocks (map (fun p => add (fst p) (snd p)) (combine r (firstn 8 a)))
                 (skipn 8 a) b
  end.

(** From 8 to 128 elements: 8 accumulators over the blocks of 8, combined
    as a tree, then the elements after the last whole block one by one. *)
Definition sum_unrolled (a : list spec_float) : spec_float :=
  let n := length a in
  let '(r, rest) := add_blocks (firstn 8 a) (skipn 8 a) (n / 8 - 1)%nat in
  match r with
  | [r0; r1; r2; r3; r4; r5; r6; r7] =>
      fold_left add rest
        (add (add (add r0 r1) (add r2 r3)) (add (add r4 r5) (add r6 r7)))
  | _ => zero
  end.

(** Above 128 elements the array is split near the middle, at a multiple of
    8; [fuel] bounds the depth of the splitting and the length of the array
    is always enough. *)
Fixpoint pairwise_sum (fuel : nat) (a : list spec_float) : spec_float :=
  let n := length a in
  if (n <? 8)%nat then sum_small a
  else if (n <=? 128)%nat then sum_unrolled a
  else
    match fuel with
    | O => sum_unrolled a
    | S f =>
        let n2 := (n / 2)%nat in
        let n2 := (n2 - n2 mod 8)%nat in
        add (pairwise_sum f (firstn n2 a)) (pairwise_sum f (skipn n2 a))
    end.

(** [np.mean] of a list of binary32 values: the reduction starts from the
    identity [0.0], and the sum is divided by the count.  On an empty list
    this is [0.0 / 0], numpy's [nan]. *)
Definition np_mean (a : list spec_float) : spec_float :=
  div (add zero (pairwise_sum (length a) a)) (of_Z (Z.of_nat (length a))).

(** [m > t]; a comparison with [nan] is false. *)
Definition gt (m t : spec_float) : bool :=
  match SFcompare m t with
  | Some Gt => true
  | _ => false
  end.

Definition th : spec_float := Eval vm_compute in dec 1 2.

Record locals : Type := mkLocals {
  prob_list : list spec_float;
  class_list : list Z
}.

Definition init : locals := mkLocals [] [].

Definition threshold (st : locals) : locals :=
  let prob := np_mean (prob_list st) in
  if gt prob th
  then mkLocals (prob_list st) (class_list st ++ [1%Z])
  else mkLocals (prob_list st) (class_list st ++ [0%Z]).

Section Smoother.

Variable feature : Type.
Variable score : feature -> spec_float.

Definition fill_body (mfccs_list : list feature) (i : nat) (st : locals)
    : result locals :=
  x <- getitem mfccs_list i ;;
  Ok (mkLocals (prob_list st ++ [score x]) (class_list st)).

Definition slide_body (mfccs_list : list feature) (i : nat) (st : locals)
    : result locals :=
  rest <- pop0 (prob_list st) ;;
  x <- getitem mfccs_list i ;;
  Ok (threshold (mkLocals (rest ++ [score x]) (class_list st))).

Definition predict_probability (mfccs_list : list feature) : result (list Z) :=
  st <- for_range (fill_body mfccs_list) 0 N init ;;
  st <- Ok (threshold st) ;;
  st <- for_range (slide_body mfccs_list) N (length mfccs_list - N) st ;;
  Ok (class_list st).

(** The locals once [k] scores have been appended, as [run_upto] above. *)
Definition run_upto (mfccs_list : list feature) (k : nat) : result locals :=
  if k <? N
  then for_range (fill_body mfccs_list) 0 k init
  else
    st <- for_range (fill_body mfccs_list) 0 N init ;;
    for_range (slide_body mfccs_list) N (k - N) (threshold st).

(** The decision list holds the integers 0 and 1, whose float64 mean is
    exact: the vote is [clip_vote]. *)
Definition predict_output (mfccs_list : list feature) : result Z :=
  cl <- predict_probability mfccs_list ;;
  Ok (clip_vote cl).

Definition window (mfccs_list : list feature) (j : nat) : list spec_float :=
  map score (firstn N (skipn j mfccs_list)).

Definition label_of (pl : list spec_float) : Z :=
  if gt (np_mean pl) th then 1%Z else 0%Z.

(** How many windows of the clip have a computed mean above [th]. *)
Definition siren_windows (l : list feature) : nat :=
  length (filter (fun j => gt (np_mean (window l j)) th)
                 (seq 0 (length l - N + 1))).

End Smoother.

(** A scripted scorer: the frame is its own binary32 score. *)
Definition scripted : spec_float -> spec_float := fun p => p.

(** The exact value of a finite binary32 number. *)
Definition to_Q (f : spec_float) : Q :=
  match f with
  | S754_finite s m e =>
      let v := match e with
               | Zneg p => Z.pos m # Pos.pow 2 p
               | _ => inject_Z (Z.pos m * 2 ^ e)
               end in
      if s then Qopp v else v
  | _ => 0
  end.

End Float32.

(** * The cutoff normalisation on Python floats

    [butter_bandpass_filter] computes on Python numbers, of which [0.5] is
    a float: the products and quotients are binary64 (precision 53, maximal
    exponent 1024), and a division by a zero of either sign raises
    [ZeroDivisionError]. *)

Module Float64.

Definition prec : Z := 53%Z.
Definition emax : Z := 1024%Z.

Definition of_Z (z : Z) : spec_float := binary_normalize prec emax z 0 false.
Definition dec (a b : Z) : spec_float := SFdiv prec emax (of_Z a) (of_Z b).

Definition is_zero (f : spec_float) : bool :=
  match f with
  | S754_zero _ => true
  | _ => false
  end.

(** [a / b] on Python floats. *)
Definition truediv (a b : spec_float) : outcome spec_float :=
  if is_zero b then Failed ZeroDivisionError else Done (SFdiv prec emax a b).

Section Filter.

Variable signal : Type.
Variable coefficients : Type.

(** [scipy.signal.butter(order, [low, high], btype='band')] and
    [scipy.signal.lfilter(b, a, data)]. *)
Variable butter : nat -> spec_float -> spec_float -> outcome coefficients.
Variable lfilter : coefficients -> signal -> outcome signal.

Definition butter_bandpass_filter (data : signal)
    (lowcut highcut fs : spec_float) (order : nat) : outcome signal :=
  let nyq := SFmul prec emax (dec 1 2) fs in
  low <~ truediv lowcut nyq ;;
  high <~ truediv highcut nyq ;;
  ba <~ butter order low high ;;
  lfilter ba data.

End Filter.

(** Stand-ins for a filter library that accepts every specification: the
    coefficients are the normalised cutoffs it was handed, and the filter
    returns its input. *)
Definition accepting_butter (order : nat) (low high : spec_float)
    : outcome (spec_float * spec_float) :=
  Done (low, high).

Definition passing_lfilter (ba : spec_float * spec_float)
    (data : list spec_float) : outcome (list spec_float) :=
  Done data.

End Float64.

(** * Properties *)

Local Open Scope nat_scope.

(** ** Lists *)

Lemma firstn_snoc (A : Type) (l : list A) (n : nat) (x : A) :
  nth_error l n = Some x -> firstn (S n) l = firstn n l ++ [x].
Proof.
  revert l; induction n as [|n IH]; intros [|a l] H; simpl in H; try discriminate.
  - injection H as ->. reflexivity.
  - cbn [firstn app]. f_equal. apply IH, H.
Qed.

Lemma skipn_cons_nth (A : Type) (l : list A) (j : nat) (a : A) :
  nth_error l j = Some a -> skipn j l = a :: skipn (S j) l.
Proof.
  revert l; induction j as [|j IH]; intros [|b l] H; simpl in H; try discriminate.
  - injection H as ->. reflexivity.
  - apply IH, H.
Qed.

Lemma nth_error_skipn (A : Type) (l : list A) (j n : nat) :
  nth_error (skipn j l) n = nth_error l (j + n).
Proof.
  revert l; induction j as [|j IH]; intros [|b l]; simpl; auto.
  destruct n; reflexivity.
Qed.

Lemma nth_error_in_range (A : Type) (l : list A) (i : nat) :
  i < length l -> exists a, nth_error l i = Some a.
Proof.
  intros H. destruct (nth_error l i) eqn:E; eauto.
  apply nth_error_None in E. lia.
Qed.

(** Sliding a window by one frame: drop its head, append the next frame. *)
Lemma window_shift (A : Type) (l : list A) (n j : nat) (x : A) :
  S n + j <= length l ->
  nth_error l (S n + j) = Some x ->
  tl (firstn (S n) (skipn j l)) ++ [x] = firstn (S n) (skipn (S j) l).
Proof.
  intros Hlen Hx.
  destruct (@nth_error_in_range A l j ltac:(lia)) as [a Ha].
  rewrite (skipn_cons_nth _ _ Ha). cbn [firstn tl].
  symmetry. apply firstn_snoc.
  rewrite nth_error_skipn. replace (S j + n) with (S n + j) by lia. exact Hx.
Qed.

(** ** The loops *)

Lemma for_range_app (St : Type) (body : nat -> St -> result St)
    (a b i : nat) (st : St) :
  for_range body i (a + b) st =
  (st' <- for_range body i a st ;; for_range body (i + a) b st').
Proof.
  revert i st; induction a as [|a IH]; intros i st; simpl.
  - now rewrite Nat.add_0_r.
  - destruct (body i st) as [st'|e]; simpl; [|reflexivity].
    rewrite IH. now replace (S i + a) with (i + S a) by lia.
Qed.

Section SmootherFacts.

Variable feature : Type.
Variable score : feature -> Q.
Implicit Types (l : list feature) (st : locals).

Lemma fill_spec l k i st :
  i + k <= length l ->
  for_range (fill_body score l) i k st =
  Ok (mkLocals (prob_list st ++ map score (firstn k (skipn i l)))
               (class_list st)).
Proof.
  revert i st; induction k as [|k IH]; intros i st H; simpl.
  - rewrite app_nil_r. now destruct st.
  - unfold fill_body at 1, getitem.
    destruct (@nth_error_in_range _ l i ltac:(lia)) as [x Hx].
    rewrite Hx; simpl. rewrite IH by lia; simpl.
    rewrite (skipn_cons_nth _ _ Hx); simpl.
    now rewrite <- app_assoc.
Qed.

Lemma fill_fails l k i st :
  0 < k -> length l < i + k ->
  for_range (fill_body score l) i k st = Raise IndexError.
Proof.
  revert i st; induction k as [|k IH]; intros i st Hk H; simpl; [lia|].
  unfold fill_body at 1, getitem.
  destruct (nth_error l i) as [x|] eqn:Hx; simpl; [|reflexivity].
  assert (i < length l) by (apply nth_error_Some; congruence).
  apply IH; lia.
Qed.

Lemma threshold_spec pl cl :
  threshold (mkLocals pl cl) = mkLocals pl (cl ++ [label_of pl]).
Proof. unfold threshold, label_of; simpl. now destruct (gt (np_mean pl) th). Qed.

Lemma window_length l j : N + j <= length l -> length (window score l j) = N.
Proof.
  intros H. unfold window. rewrite length_map, length_firstn, length_skipn. lia.
Qed.

(** [k] rounds of the second loop, entered with the window of frame [j]. *)
Lemma slide_spec l k j cl :
  N + j + k <= length l ->
  for_range (slide_body score l) (N + j) k (mkLocals (window score l j) cl) =
  Ok (mkLocals (window score l (j + k))
               (cl ++ map (fun i => label_of (window score l i)) (seq (S j) k))).
Proof.
  revert j cl; induction k as [|k IH]; intros j cl H; cbn [for_range seq map].
  - now rewrite Nat.add_0_r, app_nil_r.
  - unfold slide_body at 1, getitem; cbn [prob_list class_list].
    destruct (@nth_error_in_range _ l (N + j) ltac:(lia)) as [x Hx].
    assert (Hw : tl (window score l j) ++ [score x] = window score l (S j)).
    { unfold window, N.
      rewrite <- (@window_shift _ l 9 j x); [|unfold N in *; lia|exact Hx].
      rewrite map_app. now destruct (firstn 10 (skipn j l)). }
    pose proof (@window_length l j ltac:(lia)) as Hlen.
    destruct (window score l j) as [|p rest] eqn:Ew; [discriminate Hlen|].
    cbn [pop0 bind tl] in *. rewrite Hx; cbn [bind].
    rewrite Hw, threshold_spec.
    replace (S (N + j)) with (N + S j) by lia.
    rewrite IH by lia. rewrite <- app_assoc; cbn [app].
    now replace (S j + k) with (j + S k) by lia.
Qed.

(** The decisions of a clip of at least [N] frames: one label per window. *)
Lemma predict_probability_spec l :
  N <= length l ->
  predict_probability score l =
  Ok (map (fun j => label_of (window score l j)) (seq 0 (length l - N + 1))).
Proof.
  intros H. unfold predict_probability.
  rewrite fill_spec by lia. cbn [bind init prob_list class_list app skipn].
  fold (window score l 0). rewrite threshold_spec.
  change N with (N + 0) at 1. rewrite slide_spec by lia. cbn [bind class_list].
  rewrite Nat.add_1_r. reflexivity.
Qed.

Lemma predict_probability_short l :
  length l < N -> predict_probability score l = Raise IndexError.
Proof.
  intros H. unfold predict_probability. now rewrite fill_fails by (unfold N in *; lia).
Qed.

(** [run_upto] at the end of the clip is the run of [predict_probability]. *)
Lemma predict_probability_run l :
  predict_probability score l =
  (st <- run_upto score l (Nat.max N (length l)) ;; Ok (class_list st)).
Proof.
  unfold predict_probability, run_upto.
  destruct (Nat.ltb_spec (Nat.max N (length l)) N) as [H|H]; [lia|].
  destruct (for_range (fill_body score l) 0 N init) as [st|e]; cbn [bind];
    [|reflexivity].
  destruct (Nat.le_ge_cases N (length l)) as [H'|H'].
  - now rewrite Nat.max_r by assumption.
  - rewrite Nat.max_l by assumption.
    now replace (length l - N) with (N - N) by lia.
Qed.

(** Cutting the run after [k] pushes and resuming it is the whole run. *)
Lemma predict_probability_cut l k :
  k < N \/ k <= length l ->
  predict_probability score l =
  (st <- run_upto score l k ;; resume score l k st).
Proof.
  intros Hk. unfold predict_probability, run_upto, resume.
  destruct (Nat.ltb_spec k N) as [Hlt|Hge].
  - replace N with (k + (N - k)) at 1 by lia. rewrite for_range_app.
    destruct (for_range (fill_body score l) 0 k init) as [st|e]; cbn [bind];
      [|reflexivity].
    rewrite Nat.add_0_l.
    now destruct (for_range (fill_body score l) k (N - k) st).
  - destruct (for_range (fill_body score l) 0 N init) as [st|e]; cbn [bind];
      [|reflexivity].
    replace (length l - N) with ((k - N) + (length l - k)) by lia.
    rewrite for_range_app. replace (N + (k - N)) with k by lia.
    now destruct (for_range (slide_body score l) N (k - N) (threshold st)).
Qed.

Lemma run_upto_filling l k :
  k < N -> k <= length l ->
  run_upto score l k = Ok (mkLocals (map score (firstn k l)) []).
Proof.
  intros Hk Hl. unfold run_upto.
  destruct (Nat.ltb_spec k N) as [_|H]; [|lia].
  now rewrite fill_spec by lia.
Qed.

Lemma run_upto_steady l k :
  N <= k -> k <= length l ->
  run_upto score l k =
  Ok (mkLocals (window score l (k - N))
               (map (fun j => label_of (window score l j)) (seq 0 (k - N + 1)))).
Proof.
  intros Hk Hl. unfold run_upto.
  destruct (Nat.ltb_spec k N) as [H|_]; [lia|].
  rewrite fill_spec by lia. cbn [bind init prob_list class_list app skipn].
  fold (window score l 0). rewrite threshold_spec.
  change N with (N + 0) at 1. rewrite slide_spec by lia.
  rewrite Nat.add_1_r. reflexivity.
Qed.

End SmootherFacts.

(** ** Thresholding *)

Lemma gt_Some (q t : Q) : gt (Some q) t = true <-> (t < q)%Q.
Proof.
  unfold gt. rewrite (Qgt_alt q t).
  destruct (q ?= t)%Q; split; intros H; congruence.
Qed.

Lemma gt_Some_false (q t : Q) : gt (Some q) t = false <-> (q <= t)%Q.
Proof.
  rewrite <- not_true_iff_false, gt_Some. split.
  - apply Qnot_lt_le.
  - apply Qle_not_lt.
Qed.

Lemma np_mean_nonempty (pl : list Q) :
  pl <> [] -> exists m, np_mean pl = Some m.
Proof. destruct pl; [congruence|]. intros _. eexists. reflexivity. Qed.

Lemma label_of_binary (pl : list Q) : label_of pl = 0%Z \/ label_of pl = 1%Z.
Proof. unfold label_of. destruct (gt (np_mean pl) th); auto. Qed.

Lemma label_of_mean (pl : list Q) (m : Q) :
  np_mean pl = Some m ->
  (label_of pl = 1%Z <-> (th < m)%Q) /\ (label_of pl = 0%Z <-> (m <= th)%Q).
Proof.
  intros E. unfold label_of. rewrite E.
  destruct (gt (Some m) th) eqn:G.
  - pose proof (proj1 (gt_Some m th) G) as L. repeat split; intros; try easy.
    exfalso. eapply Qlt_not_le; eauto.
  - pose proof (proj1 (gt_Some_false m th) G) as L. repeat split; intros; try easy.
    exfalso. eapply Qlt_not_le; eauto.
Qed.

(** ** The smoother's window (C1) *)

(** The window after [k] pushes holds the last [min k N] scores, oldest
    first. *)
Lemma run_upto_window (feature : Type) (score : feature -> Q)
    (l : list feature) (k : nat) :
  k <= length l ->
  exists st,
    run_upto score l k = Ok st /\
    prob_list st = map score (skipn (k - N) (firstn k l)) /\
    length (class_list st) = k + 1 - N.
Proof.
  intros Hk. destruct (Nat.lt_ge_cases k N) as [Hlt|Hge].
  - rewrite run_upto_filling by assumption. eexists; split; [reflexivity|].
    cbn [prob_list class_list length].
    replace (k - N) with 0 by lia. split; [reflexivity|lia].
  - rewrite run_upto_steady by assumption. eexists; split; [reflexivity|].
    cbn [prob_list class_list]. split.
    + unfold window. rewrite firstn_skipn_comm.
      now replace (k - N + N) with k by lia.
    + rewrite length_map, length_seq. lia.
Qed.

(** C1. Whatever frames are scored: after [k] pushes the probability window
    [prob_list] holds the last [min k N] scores, so its length never exceeds
    [N = 10]; while fewer than [N] scores have been pushed no running
    decision exists; at exactly [N] pushes there is exactly one; and each
    later push drops the head of [prob_list] (the oldest score) and appends
    the new score at its end.  Seen from outside, a clip of fewer than [N]
    frames gives no decision list and a clip of exactly [N] frames gives a
    list of one decision. *)
Theorem smoother_window_fifo (feature : Type) (score : feature -> Q)
    (l : list feature) :
  (forall k, k <= length l ->
     exists st,
       run_upto score l k = Ok st /\
       prob_list st = map score (skipn (k - N) (firstn k l)) /\
       length (prob_list st) = Nat.min k N /\
       length (prob_list st) <= N /\
       (k < N -> class_list st = []) /\
       (k = N -> length (class_list st) = 1) /\
       (N <= k -> forall x, nth_error l k = Some x ->
          exists st',
            run_upto score l (S k) = Ok st' /\
            prob_list st' = tl (prob_list st) ++ [score x] /\
            length (tl (prob_list st)) = N - 1)) /\
  (length l < N -> forall cl, predict_probability score l <> Ok cl) /\
  (length l = N -> exists d, predict_probability score l = Ok [d]).
Proof.
  split; [|split].
  - intros k Hk.
    destruct (run_upto_window score l Hk) as (st & Hrun & Hwin & Hcl).
    exists st. split; [exact Hrun|]. split; [exact Hwin|].
    assert (Hlen : length (prob_list st) = Nat.min k N).
    { rewrite Hwin, length_map, length_skipn, length_firstn. lia. }
    split; [exact Hlen|]. split; [lia|]. split; [|split].
    + intros Hlt. apply length_zero_iff_nil. lia.
    + intros ->. rewrite Hcl. unfold N. reflexivity.
    + intros Hge x Hx.
      assert (HSk : S k <= length l).
      { apply Nat.le_succ_l, nth_error_Some. congruence. }
      destruct (run_upto_window score l HSk) as (st' & Hrun' & Hwin' & _).
      exists st'. split; [exact Hrun'|]. split.
      * rewrite Hwin', Hwin.
        rewrite (firstn_snoc _ _ Hx).
        replace (S k - N) with (S (k - N)) by lia.
        assert (Hn : k - N < length (firstn k l)) by (rewrite length_firstn; unfold N in *; lia).
        destruct (nth_error_in_range _ Hn) as [a Ha].
        rewrite (skipn_cons_nth _ _ Ha). cbn [map tl].
        rewrite skipn_app, map_app.
        replace (S (k - N) - length (firstn k l)) with 0
          by (rewrite length_firstn; unfold N in *; lia).
        reflexivity.
      * destruct (prob_list st) as [|q rest]; cbn [tl length] in *; unfold N in *; lia.
  - intros Hlt cl. rewrite predict_probability_short by assumption. discriminate.
  - intros Heq. rewrite predict_probability_spec by lia.
    replace (length l - N + 1) with 1 by lia. eexists. reflexivity.
Qed.

Lemma smoother_window_fifo_witness :
  (exists st, run_upto scripted (repeat (1 # 2)%Q 12) 11 = Ok st /\
              length (prob_list st) <= N) /\
  (forall cl, predict_probability scripted (repeat (1 # 2)%Q 9) <> Ok cl) /\
  (exists d, predict_probability scripted (repeat (1 # 2)%Q 10) = Ok [d]).
Proof.
  split; [|split].
  - destruct (proj1 (smoother_window_fifo scripted (repeat (1 # 2)%Q 12)) 11)
      as (st & Hrun & _ & _ & Hle & _).
    + simpl; lia.
    + exists st. split; assumption.
  - apply (proj1 (proj2 (smoother_window_fifo scripted (repeat (1 # 2)%Q 9)))).
    simpl; unfold N; lia.
  - apply (proj2 (proj2 (smoother_window_fifo scripted (repeat (1 # 2)%Q 10)))).
    reflexivity.
Defined.

(** ** Length and range of the decision list (C9) *)

(** C9. A clip of [M >= N] frames gives [M - N + 1] running decisions, each
    of them [0] or [1]. *)
Theorem predict_probability_length (feature : Type) (score : feature -> Q)
    (l : list feature) :
  N <= length l ->
  exists cl,
    predict_probability score l = Ok cl /\
    length cl = length l - N + 1 /\
    Forall (fun d => d = 0%Z \/ d = 1%Z) cl.
Proof.
  intros H. rewrite predict_probability_spec by assumption.
  eexists. split; [reflexivity|]. split.
  - now rewrite length_map, length_seq.
  - apply Forall_map, Forall_forall. intros j _. apply label_of_binary.
Qed.

Lemma predict_probability_length_witness :
  exists cl,
    predict_probability scripted (repeat (9 # 10)%Q 13) = Ok cl /\
    length cl = 4 /\
    Forall (fun d => d = 0%Z \/ d = 1%Z) cl.
Proof.
  apply (@predict_probability_length Q scripted (repeat (9 # 10)%Q 13)).
  simpl; unfold N; lia.
Defined.

(** ** Clips shorter than the window (C10) *)

(** C10. A clip of fewer than [N] frames makes the first loop index past
    the end of the frame list: the call raises [IndexError] and returns no
    list, in particular not the empty one.  The call returns a list exactly
    when the clip has at least [N] frames. *)
Theorem predict_probability_needs_N_frames (feature : Type)
    (score : feature -> Q) (l : list feature) :
  (length l < N -> predict_probability score l = Raise IndexError) /\
  ((exists cl, predict_probability score l = Ok cl) <-> N <= length l) /\
  predict_probability score l <> Ok [].
Proof.
  split; [apply predict_probability_short|]. split.
  - split.
    + intros [cl Hcl]. destruct (Nat.lt_ge_cases (length l) N) as [Hlt|Hge];
        [|exact Hge].
      rewrite predict_probability_short in Hcl by assumption. discriminate.
    + intros H. rewrite predict_probability_spec by assumption. eauto.
  - destruct (Nat.lt_ge_cases (length l) N) as [Hlt|Hge].
    + rewrite predict_probability_short by assumption. discriminate.
    + rewrite predict_probability_spec by assumption.
      rewrite Nat.add_1_r. discriminate.
Qed.

Lemma predict_probability_needs_N_frames_witness :
  predict_probability scripted (repeat (9 # 10)%Q 9) = Raise IndexError.
Proof.
  apply (proj1 (predict_probability_needs_N_frames scripted (repeat (9 # 10)%Q 9))).
  simpl; unfold N; lia.
Defined.

(** ** The clip-level vote (C3, C4) *)

Lemma np_sum_inject (cl : list Z) :
  np_sum (map inject_Z cl) = inject_Z (fold_right Z.add 0%Z cl).
Proof.
  induction cl as [|d cl IH]; [reflexivity|].
  cbn [map np_sum fold_right] in *. fold (np_sum (map inject_Z cl)). rewrite IH.
  unfold Qplus, inject_Z; simpl. f_equal. lia.
Qed.

Lemma sum_binary (cl : list Z) :
  Forall (fun d => d = 0%Z \/ d = 1%Z) cl ->
  fold_right Z.add 0%Z cl = Z.of_nat (count_occ Z.eq_dec cl 1%Z).
Proof.
  induction 1 as [|d cl [-> | ->] _ IH]; cbn [fold_right count_occ].
  - reflexivity.
  - destruct (Z.eq_dec 0 1); [discriminate|]. rewrite IH. lia.
  - destruct (Z.eq_dec 1 1); [|congruence]. rewrite IH. lia.
Qed.

(** Half of [n] is below [s / n] exactly when [n < 2 s]. *)
Lemma half_lt_ratio (s : Z) (n : nat) :
  0 < n ->
  ((1 # 2) < inject_Z s / inject_Z (Z.of_nat n))%Q <-> (Z.of_nat n < 2 * s)%Z.
Proof.
  intros Hn. destruct n as [|n]; [lia|].
  remember (2 * s)%Z as t eqn:Et.
  unfold Qlt, Qdiv, Qmult, Qinv, inject_Z. rewrite Nat2Z.inj_succ.
  destruct (Z.succ (Z.of_nat n)) as [|q|q] eqn:E; try lia.
  simpl. lia.
Qed.

(** C3. On a non-empty decision list the vote is [1] exactly when the mean
    of the labels is strictly above [0.5], and [0] otherwise; a mean of
    exactly [0.5] gives [0].  On labels in [{0, 1}] this is a strict
    majority of ones.  [predict_output] returns this vote on the list that
    [predict_probability] returns. *)
Theorem clip_vote_strict_majority :
  (forall cl : list Z,
     cl <> [] ->
     exists m,
       np_mean (map inject_Z cl) = Some m /\
       (clip_vote cl = 1%Z <-> ((1 # 2) < m)%Q) /\
       (clip_vote cl = 0%Z <-> (m <= (1 # 2))%Q) /\
       ((m == (1 # 2))%Q -> clip_vote cl = 0%Z) /\
       (Forall (fun d => d = 0%Z \/ d = 1%Z) cl ->
        (clip_vote cl = 1%Z <-> length cl < 2 * count_occ Z.eq_dec cl 1%Z))) /\
  (forall (feature : Type) (score : feature -> Q) (l : list feature) cl,
     predict_probability score l = Ok cl ->
     predict_output score l = Ok (clip_vote cl)) /\
  clip_vote [1%Z; 0%Z] = 0%Z.
Proof.
  split; [|split; [|reflexivity]].
  - intros cl Hne.
    destruct (@np_mean_nonempty (map inject_Z cl)) as [m Hm].
    { destruct cl; [congruence|discriminate]. }
    pose proof (label_of_mean _ Hm) as [H1 H0].
    change (label_of (map inject_Z cl)) with (clip_vote cl) in H1, H0.
    change th with (1 # 2)%Q in H1, H0.
    exists m. split; [exact Hm|]. split; [exact H1|]. split; [exact H0|]. split.
    + intros E. apply H0. rewrite E. apply Qle_refl.
    + intros Hbin. rewrite H1.
      destruct cl as [|d cl']; [congruence|].
      set (cl := d :: cl') in *.
      assert (Em : m = (inject_Z (fold_right Z.add 0%Z cl)
                        / inject_Z (Z.of_nat (length cl)))%Q).
      { unfold np_mean in Hm. subst cl. cbn [map] in Hm.
        injection Hm as <-. cbn [map]. rewrite <- np_sum_inject.
        cbn [map]. now rewrite length_map. }
      rewrite Em, half_lt_ratio by (subst cl; simpl; lia).
      rewrite (sum_binary Hbin). lia.
  - intros feature score l cl H. unfold predict_output. now rewrite H.
Qed.

Lemma clip_vote_strict_majority_witness :
  exists m,
    np_mean (map inject_Z [1%Z; 0%Z; 1%Z]) = Some m /\
    (clip_vote [1%Z; 0%Z; 1%Z] = 1%Z <-> ((1 # 2) < m)%Q).
Proof.
  destruct (proj1 clip_vote_strict_majority [1%Z; 0%Z; 1%Z])
    as (m & Hm & H1 & _).
  - discriminate.
  - exists m. split; assumption.
Defined.

(** C4, as the code has it.  A clip with fewer than [N] frames gets no
    label: [predict_output] fails with the [IndexError] raised while the
    window is being filled.  Whenever [predict_probability] does return, its
    list is not empty, so the vote is never taken over an empty decision
    list. *)
Theorem predict_output_short_clip (feature : Type) (score : feature -> Q)
    (l : list feature) :
  (length l < N ->
     predict_output score l = Raise IndexError /\
     forall v, predict_output score l <> Ok v) /\
  (forall cl, predict_probability score l = Ok cl ->
     cl <> [] /\ predict_output score l = Ok (clip_vote cl)).
Proof.
  split.
  - intros H. unfold predict_output.
    rewrite predict_probability_short by assumption. split; [reflexivity|].
    intros v. discriminate.
  - intros cl Hcl. split.
    + destruct (Nat.lt_ge_cases (length l) N) as [Hlt|Hge].
      * rewrite predict_probability_short in Hcl by assumption. discriminate.
      * rewrite predict_probability_spec, Nat.add_1_r in Hcl by assumption.
        injection Hcl as <-. discriminate.
    + unfold predict_output. now rewrite Hcl.
Qed.

Lemma predict_output_short_clip_witness :
  predict_output scripted (repeat (9 # 10)%Q 9) = Raise IndexError /\
  predict_output scripted (repeat (9 # 10)%Q 10) = Ok 1%Z.
Proof.
  split.
  - apply (proj1 (predict_output_short_clip scripted (repeat (9 # 10)%Q 9))).
    simpl; unfold N; lia.
  - apply (proj2 (predict_output_short_clip scripted (repeat (9 # 10)%Q 10))
             [1%Z]).
    reflexivity.
Defined.

(** C4 as the spec words it does not hold: the vote of lines 256-259 has no
    guard against an empty decision list.  The mean of the empty list is
    [nan], the comparison with it is false, and the vote returns the label
    [0] instead of failing. *)
Lemma vote_on_empty_list_returns_label :
  np_mean (map inject_Z []) = None /\
  gt (np_mean (map inject_Z [])) (1 # 2)%Q = false /\
  clip_vote [] = 0%Z.
Proof. repeat split. Qed.

(** ** The scripted scenario (C7) *)

(** C7 as the spec words it does not hold: the eleventh push does not end
    the siren run, and it is not the first push whose window is free of
    [0.9]: after it the window still holds
    nine of them. *)
Lemma scenario_no_transition_at_11 :
  transition_push scenario <> Some 11 /\
  first_push_free_of (9 # 10)%Q scenario <> Some 11 /\
  (exists st,
     run_upto scripted scenario 11 = Ok st /\
     prob_list st = repeat (9 # 10)%Q 9 ++ [(1 # 10)%Q] /\
     class_list st = [1%Z; 1%Z]).
Proof.
  split; [|split].
  - vm_compute. discriminate.
  - vm_compute. discriminate.
  - eexists. split; [vm_compute; reflexivity|]. split; reflexivity.
Qed.

(** C7, as the code has it.  On [[0.9]*10 + [0.1]*10] the running decisions
    are five sirens (pushes 10 to 14) followed by six non-sirens (pushes 15
    to 20): the run leaves siren at the fifteenth push, when the window
    holds five [0.9] and five [0.1] and its mean equals [th], which the
    strict comparison resolves to non-siren.  The window is free of [0.9]
    only from the twentieth push. *)
Theorem scenario_transition_at_15 :
  predict_probability scripted scenario =
    Ok [1; 1; 1; 1; 1; 0; 0; 0; 0; 0; 0]%Z /\
  transition_push scenario = Some 15 /\
  (exists st m,
     run_upto scripted scenario 15 = Ok st /\
     prob_list st = repeat (9 # 10)%Q 5 ++ repeat (1 # 10)%Q 5 /\
     np_mean (prob_list st) = Some m /\ (m == th)%Q) /\
  (exists st m,
     run_upto scripted scenario 14 = Ok st /\
     prob_list st = repeat (9 # 10)%Q 6 ++ repeat (1 # 10)%Q 4 /\
     np_mean (prob_list st) = Some m /\ (th < m)%Q) /\
  first_push_free_of (9 # 10)%Q scenario = Some 20.
Proof.
  split; [vm_compute; reflexivity|].
  split; [vm_compute; reflexivity|].
  split; [|split; [|vm_compute; reflexivity]].
  - eexists; eexists. split; [vm_compute; reflexivity|].
    split; [reflexivity|]. split; [reflexivity|]. vm_compute. reflexivity.
  - eexists; eexists. split; [vm_compute; reflexivity|].
    split; [reflexivity|]. split; [reflexivity|]. vm_compute. reflexivity.
Qed.

(** * Further properties of the decision pipeline *)

(** ** Windows of sub-clips *)

Lemma window_app (feature : Type) (score : feature -> Q)
    (l l' : list feature) (j : nat) :
  N + j <= length l -> window score (l ++ l') j = window score l j.
Proof.
  intros H. unfold window. rewrite skipn_app, firstn_app.
  replace (N - length (skipn j l)) with 0 by (rewrite length_skipn; lia).
  now rewrite firstn_O, app_nil_r.
Qed.

Lemma window_skipn (feature : Type) (score : feature -> Q)
    (l : list feature) (j i : nat) :
  window score (skipn j l) i = window score l (j + i).
Proof. unfold window. rewrite skipn_skipn. now rewrite (Nat.add_comm j i). Qed.

Lemma map_seq_offset (A : Type) (f : nat -> A) (j m : nat) :
  map f (seq j m) = map (fun i => f (j + i)) (seq 0 m).
Proof.
  rewrite <- (Nat.add_0_r j) at 1. generalize 0 as k.
  induction m as [|m IH]; intros k; [reflexivity|].
  cbn [seq map]. f_equal. rewrite <- IH. now rewrite Nat.add_succ_r.
Qed.

(** X1. Frames appended to a clip of at least [N] frames leave the
    decisions already taken as they are: the decisions of the longer clip
    are those of the shorter one followed by one decision per added frame. *)
Theorem decisions_extend (feature : Type) (score : feature -> Q)
    (l l' : list feature) :
  N <= length l ->
  exists ds ds',
    predict_probability score l = Ok ds /\
    predict_probability score (l ++ l') = Ok (ds ++ ds') /\
    length ds' = length l'.
Proof.
  intros H.
  rewrite !predict_probability_spec by (rewrite ?length_app; lia).
  rewrite length_app.
  set (n := length l - N + 1).
  replace (length l + length l' - N + 1) with (n + length l') by lia.
  exists (map (fun j => label_of (window score l j)) (seq 0 n)).
  exists (map (fun j => label_of (window score (l ++ l') j))
              (seq n (length l'))).
  split; [reflexivity|]. split.
  - rewrite seq_app, map_app. f_equal. f_equal. apply map_ext_in. intros j Hj.
    apply in_seq in Hj. now rewrite window_app by lia.
  - now rewrite length_map, length_seq.
Qed.

Lemma decisions_extend_witness :
  exists ds ds',
    predict_probability scripted (repeat (9 # 10)%Q 10) = Ok ds /\
    predict_probability scripted (repeat (9 # 10)%Q 10 ++ repeat (1 # 10)%Q 3)
      = Ok (ds ++ ds') /\
    length ds' = 3.
Proof.
  apply (@decisions_extend Q scripted (repeat (9 # 10)%Q 10)
           (repeat (1 # 10)%Q 3)).
  simpl; unfold N; lia.
Defined.

(** X2. Dropping the first [j] frames of a clip drops the first [j]
    decisions and changes no other, as long as [N] frames are left. *)
Theorem decisions_shift (feature : Type) (score : feature -> Q)
    (l : list feature) (j : nat) :
  N + j <= length l ->
  exists ds,
    predict_probability score l = Ok ds /\
    predict_probability score (skipn j l) = Ok (skipn j ds).
Proof.
  intros H.
  rewrite !predict_probability_spec by (rewrite ?length_skipn; lia).
  eexists. split; [reflexivity|]. f_equal.
  rewrite skipn_map, skipn_seq, length_skipn. cbn [Nat.add].
  rewrite (map_seq_offset _ j).
  replace (length l - N + 1 - j) with (length l - j - N + 1) by lia.
  apply map_ext. intros i. now rewrite window_skipn.
Qed.

Lemma decisions_shift_witness :
  exists ds,
    predict_probability scripted scenario = Ok ds /\
    predict_probability scripted (skipn 7 scenario) = Ok (skipn 7 ds).
Proof.
  apply (@decisions_shift Q scripted scenario 7).
  simpl; unfold N; lia.
Defined.

(** ** Means and thresholds *)

Lemma inject_length_cons (A : Type) (a : A) (l : list A) :
  (inject_Z (Z.of_nat (length (a :: l)))
   == inject_Z (Z.of_nat (length l)) + 1)%Q.
Proof.
  cbn [length]. rewrite Nat2Z.inj_succ. unfold Z.succ.
  now rewrite inject_Z_plus.
Qed.

Lemma inject_length_pos (A : Type) (a : A) (l : list A) :
  (0 < inject_Z (Z.of_nat (length (a :: l))))%Q.
Proof.
  change 0%Q with (inject_Z 0). rewrite <- Zlt_Qlt. cbn [length]. lia.
Qed.

Lemma np_sum_le (a b : list Q) :
  Forall2 Qle a b -> (np_sum a <= np_sum b)%Q.
Proof.
  induction 1 as [|x y a b Hxy _ IH]; cbn [np_sum fold_right].
  - apply Qle_refl.
  - apply Qplus_le_compat; assumption.
Qed.

Lemma np_sum_above (t : Q) (l : list Q) :
  Forall (fun q => (t < q)%Q) l ->
  (inject_Z (Z.of_nat (length l)) * t <= np_sum l)%Q /\
  (l <> [] -> (inject_Z (Z.of_nat (length l)) * t < np_sum l)%Q).
Proof.
  induction 1 as [|q l Hq _ [IHle _]].
  - split; [|congruence].
    change (0 * t <= 0)%Q. lra.
  - rewrite inject_length_cons. cbn [np_sum fold_right].
    fold (np_sum l). split; intros; lra.
Qed.

Lemma np_sum_below (t : Q) (l : list Q) :
  Forall (fun q => (q <= t)%Q) l ->
  (np_sum l <= inject_Z (Z.of_nat (length l)) * t)%Q.
Proof.
  induction 1 as [|q l Hq _ IH].
  - change (0 <= 0 * t)%Q. lra.
  - rewrite inject_length_cons. cbn [np_sum fold_right].
    fold (np_sum l). lra.
Qed.

(** A window whose scores are all above [t] has its mean above [t]. *)
Lemma gt_mean_all_above (t : Q) (l : list Q) :
  l <> [] -> Forall (fun q => (t < q)%Q) l -> gt (np_mean l) t = true.
Proof.
  intros Hne Hall. destruct l as [|a l]; [congruence|].
  unfold np_mean. apply gt_Some. apply Qlt_shift_div_l.
  - apply inject_length_pos.
  - destruct (np_sum_above Hall) as [_ H]. specialize (H Hne). lra.
Qed.

(** A window whose scores are all at most [t] has its mean at most [t]. *)
Lemma gt_mean_all_below (t : Q) (l : list Q) :
  Forall (fun q => (q <= t)%Q) l -> gt (np_mean l) t = false.
Proof.
  intros Hall. destruct l as [|a l]; [reflexivity|].
  unfold np_mean. apply gt_Some_false. apply Qle_shift_div_r.
  - apply inject_length_pos.
  - pose proof (np_sum_below Hall). lra.
Qed.

(** Raising scores never lowers the outcome of the comparison. *)
Lemma gt_mean_mono (t : Q) (a b : list Q) :
  Forall2 Qle a b -> gt (np_mean a) t = true -> gt (np_mean b) t = true.
Proof.
  intros H. pose proof (Forall2_length H) as Hlen.
  pose proof (np_sum_le H) as Hsum.
  destruct H as [|x y a b _ _]; [easy|].
  unfold np_mean. rewrite !gt_Some, <- Hlen. intros Hlt.
  eapply Qlt_le_trans; [exact Hlt|].
  unfold Qdiv. apply Qmult_le_compat_r; [exact Hsum|].
  apply Qinv_le_0_compat, Qlt_le_weak, inject_length_pos.
Qed.

Lemma label_of_mono (a b : list Q) :
  Forall2 Qle a b -> (label_of a <= label_of b)%Z.
Proof.
  intros H. unfold label_of.
  destruct (gt (np_mean a) th) eqn:Ga.
  - now rewrite (@gt_mean_mono th a b H Ga).
  - destruct (gt (np_mean b) th); lia.
Qed.

Lemma in_window_frames (A : Type) (l : list A) (n j : nat) (x : A) :
  In x (firstn n (skipn j l)) -> In x l.
Proof.
  intros H. rewrite <- (firstn_skipn j l). apply in_or_app. right.
  rewrite <- (firstn_skipn n (skipn j l)). apply in_or_app. now left.
Qed.

(** The vote counts ones: it is [1] exactly on a strict majority of ones. *)
Lemma clip_vote_count (cl : list Z) :
  cl <> [] ->
  Forall (fun d => d = 0%Z \/ d = 1%Z) cl ->
  (clip_vote cl = 1%Z <-> length cl < 2 * count_occ Z.eq_dec cl 1%Z) /\
  (clip_vote cl = 0%Z <-> 2 * count_occ Z.eq_dec cl 1%Z <= length cl).
Proof.
  intros Hne Hbin.
  assert (Hgt : gt (np_mean (map inject_Z cl)) (1 # 2) = true <->
                length cl < 2 * count_occ Z.eq_dec cl 1%Z).
  { destruct cl as [|d cl']; [congruence|].
    set (cl := d :: cl') in *.
    change (np_mean (map inject_Z cl))
      with (Some (np_sum (map inject_Z cl)
                  / inject_Z (Z.of_nat (length (map inject_Z cl))))%Q).
    rewrite gt_Some, np_sum_inject, length_map.
    rewrite half_lt_ratio by (subst cl; simpl; lia).
    rewrite (sum_binary Hbin). lia. }
  unfold clip_vote.
  destruct (gt (np_mean (map inject_Z cl)) (1 # 2)).
  - pose proof (proj1 Hgt eq_refl). split; split; intros; try easy; lia.
  - assert (~ length cl < 2 * count_occ Z.eq_dec cl 1%Z)
      by (intros C; apply Hgt in C; discriminate).
    split; split; intros; try easy; lia.
Qed.

Lemma count_ones_filter (A : Type) (b : A -> bool) (js : list A) :
  count_occ Z.eq_dec (map (fun j => if b j then 1%Z else 0%Z) js) 1%Z =
  length (filter b js).
Proof.
  induction js as [|j js IH]; [reflexivity|].
  cbn [map count_occ filter]. destruct (b j).
  - destruct (Z.eq_dec 1 1); [|congruence]. cbn [length]. now rewrite IH.
  - destruct (Z.eq_dec 0 1); [discriminate|]. exact IH.
Qed.

Lemma Forall2_map_le (A : Type) (f g : A -> Z) (js : list A) :
  (forall j, In j js -> (f j <= g j)%Z) ->
  Forall2 Z.le (map f js) (map g js).
Proof.
  induction js as [|j js IH]; intros H; cbn [map]; constructor.
  - apply H. now left.
  - apply IH. intros i Hi. apply H. now right.
Qed.

Lemma clip_vote_mono (a b : list Z) :
  Forall2 Z.le a b -> (clip_vote a <= clip_vote b)%Z.
Proof.
  intros H. change (label_of (map inject_Z a) <= label_of (map inject_Z b))%Z.
  apply label_of_mono. induction H; cbn [map]; constructor; [|assumption].
  now rewrite <- Zle_Qle.
Qed.

(** X3. The pipeline is monotone in the scores: if a second scorer gives
    every frame of the clip at least the score of the first, then each
    running decision under the second is at least the one under the first,
    and so is the clip label.  Raising scores never turns a siren into a
    non-siren. *)
Theorem decisions_monotone (feature : Type) (score1 score2 : feature -> Q)
    (l : list feature) :
  N <= length l ->
  (forall x, In x l -> (score1 x <= score2 x)%Q) ->
  exists ds1 ds2 v1 v2,
    predict_probability score1 l = Ok ds1 /\
    predict_probability score2 l = Ok ds2 /\
    Forall2 Z.le ds1 ds2 /\
    predict_output score1 l = Ok v1 /\
    predict_output score2 l = Ok v2 /\
    (v1 <= v2)%Z.
Proof.
  intros Hlen Hle. unfold predict_output.
  rewrite !predict_probability_spec by assumption. cbn [bind].
  assert (Hds : Forall2 Z.le
            (map (fun j => label_of (window score1 l j))
                 (seq 0 (length l - N + 1)))
            (map (fun j => label_of (window score2 l j))
                 (seq 0 (length l - N + 1)))).
  { apply Forall2_map_le. intros j _. apply label_of_mono. unfold window.
    assert (Hin : forall x, In x (firstn N (skipn j l)) ->
                            (score1 x <= score2 x)%Q).
    { intros x Hx. apply Hle. eapply in_window_frames; exact Hx. }
    induction (firstn N (skipn j l)) as [|x w IH]; cbn [map]; constructor.
    - apply Hin. now left.
    - apply IH. intros y Hy. apply Hin. now right. }
  do 4 eexists. repeat (split; [reflexivity|]).
  split; [exact Hds|]. repeat (split; [reflexivity|]).
  apply clip_vote_mono, Hds.
Qed.

Lemma decisions_monotone_witness :
  exists ds1 ds2 v1 v2,
    predict_probability scripted scenario = Ok ds1 /\
    predict_probability (fun q => q + (1 # 10))%Q scenario = Ok ds2 /\
    Forall2 Z.le ds1 ds2 /\
    predict_output scripted scenario = Ok v1 /\
    predict_output (fun q => q + (1 # 10))%Q scenario = Ok v2 /\
    (v1 <= v2)%Z.
Proof.
  apply (@decisions_monotone Q scripted (fun q => q + (1 # 10))%Q scenario).
  - simpl; unfold N; lia.
  - intros x _. unfold scripted. lra.
Defined.

(** X4. Unanimous frames give a unanimous verdict: on a clip of at least
    [N] frames, if every frame scores above [th] then every running decision
    is [1] and the clip label is [1]; if every frame scores at most [th]
    then every running decision is [0] and the clip label is [0]. *)
Theorem decisions_unanimous (feature : Type) (score : feature -> Q)
    (l : list feature) :
  N <= length l ->
  (Forall (fun x => (th < score x)%Q) l ->
     predict_probability score l = Ok (repeat 1%Z (length l - N + 1)) /\
     predict_output score l = Ok 1%Z) /\
  (Forall (fun x => (score x <= th)%Q) l ->
     predict_probability score l = Ok (repeat 0%Z (length l - N + 1)) /\
     predict_output score l = Ok 0%Z).
Proof.
  intros Hlen.
  assert (Hw : forall (P : Q -> Prop) j,
             Forall (fun x => P (score x)) l -> Forall P (window score l j)).
  { intros P j Hall. unfold window. apply Forall_map.
    rewrite Forall_forall in *. intros x Hx. apply Hall.
    eapply in_window_frames; exact Hx. }
  assert (Hvote : forall d, predict_probability score l
                            = Ok (repeat d (length l - N + 1)) ->
                  (d = 0%Z \/ d = 1%Z) ->
                  predict_output score l = Ok d).
  { intros d Hpp Hd. unfold predict_output. rewrite Hpp. cbn [bind]. f_equal.
    rewrite Nat.add_1_r in *. set (n := length l - N) in *.
    assert (Hbin : Forall (fun d => d = 0%Z \/ d = 1%Z) (repeat d (S n))).
    { apply Forall_forall. intros y Hy. apply repeat_spec in Hy. now subst. }
    destruct (@clip_vote_count (repeat d (S n)) ltac:(discriminate) Hbin)
      as [H1 H0].
    destruct Hd as [-> | ->].
    - apply H0. rewrite count_occ_repeat_neq by discriminate. lia.
    - apply H1. rewrite count_occ_repeat_eq, repeat_length by reflexivity. lia. }
  split; intros Hall.
  - assert (Hpp : predict_probability score l
                  = Ok (repeat 1%Z (length l - N + 1))).
    { rewrite predict_probability_spec by assumption. f_equal.
      replace (repeat 1%Z (length l - N + 1))
        with (map (fun _ : nat => 1%Z) (seq 0 (length l - N + 1)))
        by (now rewrite map_const, length_seq).
      apply map_ext_in. intros j Hj.
      apply in_seq in Hj. unfold label_of.
      rewrite gt_mean_all_above; [reflexivity| |now apply Hw].
      intros E. pose proof (@window_length _ score l j ltac:(lia)) as Hl.
      rewrite E in Hl. discriminate Hl. }
    split; [exact Hpp|]. apply Hvote; auto.
  - assert (Hpp : predict_probability score l
                  = Ok (repeat 0%Z (length l - N + 1))).
    { rewrite predict_probability_spec by assumption. f_equal.
      replace (repeat 0%Z (length l - N + 1))
        with (map (fun _ : nat => 0%Z) (seq 0 (length l - N + 1)))
        by (now rewrite map_const, length_seq).
      apply map_ext. intros j. unfold label_of.
      rewrite gt_mean_all_below; [reflexivity|now apply Hw]. }
    split; [exact Hpp|]. apply Hvote; auto.
Qed.

Lemma decisions_unanimous_witness :
  (predict_probability scripted (repeat (3 # 5)%Q 12) = Ok (repeat 1%Z 3) /\
   predict_output scripted (repeat (3 # 5)%Q 12) = Ok 1%Z) /\
  (predict_probability scripted (repeat (1 # 2)%Q 12) = Ok (repeat 0%Z 3) /\
   predict_output scripted (repeat (1 # 2)%Q 12) = Ok 0%Z).
Proof.
  split.
  - apply (@decisions_unanimous Q scripted (repeat (3 # 5)%Q 12)).
    + simpl; unfold N; lia.
    + apply Forall_forall. intros x Hx. apply repeat_spec in Hx. subst x.
      reflexivity.
  - apply (@decisions_unanimous Q scripted (repeat (1 # 2)%Q 12)).
    + simpl; unfold N; lia.
    + apply Forall_forall. intros x Hx. apply repeat_spec in Hx. subst x.
      unfold scripted, th. apply Qle_refl.
Defined.

(** * Properties of the rest of the script *)

(** ** read_files and get_data *)

Section DataSetFacts.

Variable file : Type.
Variable feature : Type.
Variable features_of : file -> list feature.

Lemma read_files_from (files : list file) (X : list feature) :
  fold_left (fun X fn => X ++ features_of fn) files X =
  X ++ concat (map features_of files).
Proof.
  revert X; induction files as [|fn files IH]; intros X; cbn [fold_left map concat].
  - now rewrite app_nil_r.
  - now rewrite IH, app_assoc.
Qed.

Lemma read_files_concat (files : list file) :
  read_files features_of files = concat (map features_of files).
Proof. unfold read_files. now rewrite read_files_from. Qed.

End DataSetFacts.

(** X6. [read_files] keeps the rows of the files in file order: reading two
    listings one after the other is reading their concatenation, the number
    of rows is the sum over the files, and a row is returned exactly when
    some listed file yields it. *)
Theorem read_files_rows (file feature : Type)
    (features_of : file -> list feature) (files more : list file) :
  read_files features_of (files ++ more) =
    read_files features_of files ++ read_files features_of more /\
  length (read_files features_of files) =
    list_sum (map (fun fn => length (features_of fn)) files) /\
  (forall x, In x (read_files features_of files) <->
             exists fn, In fn files /\ In x (features_of fn)).
Proof.
  rewrite !read_files_concat. split; [|split].
  - now rewrite map_app, concat_app.
  - rewrite length_concat, map_map. reflexivity.
  - intros x. rewrite in_concat. split.
    + intros (rows & Hrows & Hx). apply in_map_iff in Hrows.
      destruct Hrows as (fn & <- & Hfn). eauto.
    + intros (fn & Hfn & Hx). exists (features_of fn). split; [|exact Hx].
      now apply in_map.
Qed.

(** X7. [get_data] reads every em file, and of the non-em files only the
    first [len(em_files)]: files listed after them never matter, with fewer
    non-em than em files all of them are read and no error is raised, and
    with no em file the non-em rows are empty. *)
Theorem get_data_balance (file feature : Type)
    (features_of : file -> list feature) (em_files nonem_files : list file) :
  fst (get_data features_of em_files nonem_files) =
    read_files features_of em_files /\
  snd (get_data features_of em_files nonem_files) =
    read_files features_of
      (firstn (Nat.min (length em_files) (length nonem_files)) nonem_files) /\
  (forall later,
     length em_files <= length nonem_files ->
     get_data features_of em_files (nonem_files ++ later) =
     get_data features_of em_files nonem_files) /\
  (length nonem_files <= length em_files ->
     snd (get_data features_of em_files nonem_files) =
     read_files features_of nonem_files) /\
  (em_files = [] -> snd (get_data features_of em_files nonem_files) = []).
Proof.
  unfold get_data; cbn [fst snd]. split; [reflexivity|]. split; [|split; [|split]].
  - f_equal. destruct (Nat.le_ge_cases (length em_files) (length nonem_files)).
    + now rewrite Nat.min_l.
    + rewrite Nat.min_r by assumption. now rewrite !firstn_all2 by lia.
  - intros later H. f_equal. f_equal. rewrite firstn_app.
    replace (length em_files - length nonem_files) with 0 by lia.
    now rewrite firstn_O, app_nil_r.
  - intros H. now rewrite firstn_all2.
  - intros ->. reflexivity.
Qed.

Lemma get_data_balance_witness :
  get_data (fun n : nat => repeat n n) [1; 2] ([3; 4] ++ [5]) =
  get_data (fun n : nat => repeat n n) [1; 2] [3; 4] /\
  snd (get_data (fun n : nat => repeat n n) [1; 2; 3] [4]) =
  read_files (fun n : nat => repeat n n) [4].
Proof.
  split.
  - apply (proj1 (proj2 (proj2
      (get_data_balance (fun n : nat => repeat n n) [1; 2] [3; 4])))).
    simpl; lia.
  - apply (proj1 (proj2 (proj2 (proj2
      (get_data_balance (fun n : nat => repeat n n) [1; 2; 3] [4]))))).
    simpl; lia.
Defined.

(** ** butter_bandpass_filter *)

(** X8. A sample rate of zero makes the Nyquist rate zero: the division of
    the low cutoff raises [ZeroDivisionError] before any filter is designed,
    whatever the filter library would do. *)
Theorem butter_bandpass_filter_zero_rate (signal coefficients : Type)
    (butter : nat -> Q -> Q -> outcome coefficients)
    (lfilter : coefficients -> signal -> outcome signal)
    (data : signal) (lowcut highcut fs : Q) (order : nat) :
  (fs == 0)%Q ->
  butter_bandpass_filter butter lfilter data lowcut highcut fs order =
  Failed ZeroDivisionError.
Proof.
  intros Hfs. unfold butter_bandpass_filter, truediv.
  assert (E : Qeq_bool ((1 # 2) * fs) 0 = true).
  { apply Qeq_bool_iff. rewrite Hfs. reflexivity. }
  now rewrite E.
Qed.

Lemma butter_bandpass_filter_zero_rate_witness :
  butter_bandpass_filter (fun _ _ _ => Done tt) (fun _ (d : list Q) => Done d)
    [1; 2; 3]%Q 500 1500 0 5 = Failed ZeroDivisionError.
Proof.
  apply butter_bandpass_filter_zero_rate. reflexivity.
Defined.

(** ** The evaluation at the end of main *)

Section EvaluationFacts.

Variable feature : Type.
Variable score : feature -> Q.
Implicit Types (clip : list feature) (clips : list (list feature)).

Lemma predict_output_long clip :
  N <= length clip ->
  exists v, predict_output score clip = Ok v /\ (v = 0%Z \/ v = 1%Z).
Proof.
  intros H. unfold predict_output.
  rewrite predict_probability_spec by assumption. cbn [bind].
  eexists. split; [reflexivity|]. unfold clip_vote.
  destruct (gt _ _); auto.
Qed.

Lemma count_clips_long (target : Z) clips (t c : Z) :
  Forall (fun clip => N <= length clip) clips ->
  count_clips score target (t, c) clips =
  Ok ((t + Z.of_nat (length clips))%Z, (c + hits score target clips)%Z).
Proof.
  intros H. revert t c. unfold hits.
  induction H as [|clip clips Hclip _ IH]; intros t c.
  - cbn. now rewrite !Z.add_0_r.
  - cbn [count_clips filter length]. rewrite (Nat2Z.inj_succ (length clips)).
    set (rest := filter (labelled score target) clips) in *.
    unfold count_clip, labelled.
    destruct (@predict_output_long clip Hclip) as (v & -> & _). cbn [bind fst snd].
    rewrite IH.
    destruct (Z.eqb v target); cbn [length]; f_equal; f_equal; lia.
Qed.

Lemma count_clips_short (target : Z) clips (acc : Z * Z) :
  Exists (fun clip => length clip < N) clips ->
  count_clips score target acc clips = Raise IndexError.
Proof.
  intros H. revert acc. induction H as [clip clips Hclip|clip clips _ IH];
    intros acc; cbn [count_clips]; unfold count_clip at 1, predict_output.
  - now rewrite predict_probability_short by assumption.
  - destruct (predict_probability score clip) as [cl|[]]; cbn [bind];
      [apply IH|reflexivity].
Qed.

Lemma hits_bounds (target : Z) clips :
  (0 <= hits score target clips <= Z.of_nat (length clips))%Z.
Proof. unfold hits. pose proof (filter_length_le (labelled score target) clips). lia. Qed.

(** On clips that get a label, the label is [0] or [1]. *)
Lemma hits_complement clips :
  Forall (fun clip => N <= length clip) clips ->
  (Z.of_nat (length clips) - hits score 0 clips = hits score 1 clips)%Z.
Proof.
  unfold hits. induction 1 as [|clip clips Hclip _ IH]; [reflexivity|].
  cbn [filter length].
  set (rest0 := filter (labelled score 0) clips) in *.
  set (rest1 := filter (labelled score 1) clips) in *.
  unfold labelled.
  destruct (@predict_output_long clip Hclip) as (v & -> & [-> | ->]);
    change (0 =? 0)%Z with true; change (1 =? 1)%Z with true;
    change (0 =? 1)%Z with false; change (1 =? 0)%Z with false;
    cbv iota; cbn [length]; lia.
Qed.

Lemma hits_positive clips :
  (0 < hits score 1 clips)%Z <->
  exists clip, In clip clips /\ predict_output score clip = Ok 1%Z.
Proof.
  unfold hits. split.
  - intros H. destruct (filter (labelled score 1) clips) as [|clip rest] eqn:E;
      [simpl in H; lia|].
    assert (Hin : In clip (filter (labelled score 1) clips))
      by (rewrite E; now left).
    apply filter_In in Hin. destruct Hin as [Hin Hl]. exists clip.
    split; [exact Hin|]. unfold labelled in Hl.
    destruct (predict_output score clip) as [v|]; [|discriminate].
    apply Z.eqb_eq in Hl. now subst.
  - intros (clip & Hin & Hv).
    assert (Hf : In clip (filter (labelled score 1) clips)).
    { apply filter_In. split; [exact Hin|]. unfold labelled. now rewrite Hv. }
    destruct (filter (labelled score 1) clips); [destruct Hf|simpl; lia].
Qed.

(** The tallies [main] reaches when every test clip gets a label. *)
Lemma main_eval_long em_clips nonem_clips :
  Forall (fun clip => N <= length clip) (em_clips ++ nonem_clips) ->
  main_eval score em_clips nonem_clips =
  report (mkTally (Z.of_nat (length em_clips)) (hits score 1 em_clips)
                  (Z.of_nat (length nonem_clips)) (hits score 0 nonem_clips)).
Proof.
  intros H. apply Forall_app in H. destruct H as [Hem Hnon].
  unfold main_eval. rewrite !count_clips_long by assumption.
  cbn [fst snd]. now rewrite !Z.add_0_l.
Qed.

Lemma main_eval_short em_clips nonem_clips :
  Exists (fun clip => length clip < N) (em_clips ++ nonem_clips) ->
  main_eval score em_clips nonem_clips = ([], Some (Propagated IndexError)).
Proof.
  intros H. unfold main_eval. apply Exists_app in H.
  destruct (count_clips score 1 (0%Z, 0%Z) em_clips) as [em|[]] eqn:Eem;
    [|reflexivity].
  destruct H as [H|H].
  - rewrite count_clips_short in Eem by assumption. discriminate.
  - now rewrite count_clips_short by assumption.
Qed.

End EvaluationFacts.

Lemma float_div_unit (a b : Z) (q : Q) :
  (0 <= a <= b)%Z -> float_div a b = Done q -> (0 <= q /\ q <= 1)%Q.
Proof.
  intros Hab. unfold float_div.
  destruct (Z.eqb_spec b 0) as [|Hb]; [discriminate|].
  intros E. injection E as <-.
  assert (Hpos : (0 < inject_Z b)%Q).
  { change 0%Q with (inject_Z 0). rewrite <- Zlt_Qlt. lia. }
  split.
  - apply Qle_shift_div_l; [exact Hpos|].
    rewrite Qmult_0_l. change 0%Q with (inject_Z 0). rewrite <- Zle_Qle. lia.
  - apply Qle_shift_div_r; [exact Hpos|].
    rewrite Qmult_1_l. rewrite <- Zle_Qle. lia.
Qed.

Lemma report_in_unit (t : tally) :
  (0 <= correct_em t <= tot_em t)%Z ->
  (0 <= correct_nonem t <= tot_nonem t)%Z ->
  Forall metric_in_unit (fst (report t)).
Proof.
  intros Hem Hnon. unfold report.
  destruct (float_div (correct_em t + correct_nonem t) (tot_em t + tot_nonem t))
    as [a|e] eqn:Ea; cbn [fst]; [|repeat constructor].
  apply float_div_unit in Ea; [|lia].
  destruct (float_div (correct_em t)
              (tot_nonem t - correct_nonem t + correct_em t))
    as [p|e] eqn:Ep; cbn [fst]; [|repeat constructor; exact Ea || tauto].
  apply float_div_unit in Ep; [|lia].
  destruct (float_div (correct_em t) (tot_em t)) as [r|e] eqn:Er; cbn [fst];
    [|repeat constructor; tauto].
  apply float_div_unit in Er; [|lia].
  repeat constructor; tauto.
Qed.

Lemma hits_app (feature : Type) (score : feature -> Q) (target : Z)
    (a b : list (list feature)) :
  hits score target (a ++ b) = (hits score target a + hits score target b)%Z.
Proof. unfold hits. rewrite filter_app, length_app. lia. Qed.

(** The report always starts with the counts and the header. *)
Lemma report_starts (t : tally) :
  exists rest, fst (report t) = CountsLine t :: HeaderLine :: rest.
Proof.
  unfold report.
  destruct (float_div _ _); [|eexists; reflexivity].
  destruct (float_div _ _); [|eexists; reflexivity].
  destruct (float_div _ _); eexists; reflexivity.
Qed.

(** X10. When every test clip has at least [N] frames, the evaluation
    reaches its report and the counts line carries, for each class, the
    number of test files and the number of them that [predict_output]
    labels with their class; the correct counts never exceed the totals. *)
Theorem main_eval_tallies (feature : Type) (score : feature -> Q)
    (em_clips nonem_clips : list (list feature)) :
  Forall (fun clip => N <= length clip) (em_clips ++ nonem_clips) ->
  let t := mkTally (Z.of_nat (length em_clips)) (hits score 1 em_clips)
                   (Z.of_nat (length nonem_clips)) (hits score 0 nonem_clips) in
  main_eval score em_clips nonem_clips = report t /\
  (exists rest, fst (main_eval score em_clips nonem_clips)
                = CountsLine t :: HeaderLine :: rest) /\
  (0 <= correct_em t <= tot_em t)%Z /\
  (0 <= correct_nonem t <= tot_nonem t)%Z.
Proof.
  intros H t. rewrite (main_eval_long score _ _ H). fold t.
  split; [reflexivity|]. split; [apply report_starts|].
  split; apply hits_bounds.
Qed.

Lemma main_eval_tallies_witness :
  exists rest,
    fst (main_eval scripted [repeat (9 # 10)%Q 10; repeat (1 # 10)%Q 11]
                            [repeat (1 # 10)%Q 12])
    = CountsLine (mkTally 2 1 1 1) :: HeaderLine :: rest.
Proof.
  apply (@main_eval_tallies Q scripted
           [repeat (9 # 10)%Q 10; repeat (1 # 10)%Q 11] [repeat (1 # 10)%Q 12]).
  repeat constructor; simpl; unfold N; lia.
Defined.

(** X11. One test clip with fewer than [N] frames stops the whole
    evaluation: the [IndexError] of [predict_probability] propagates out of
    the loop and no counts or metrics are printed, whatever the other clips
    are.  The report is reached exactly when every clip has at least [N]
    frames. *)
Theorem main_eval_all_or_nothing (feature : Type) (score : feature -> Q)
    (em_clips nonem_clips : list (list feature)) :
  (Exists (fun clip => length clip < N) (em_clips ++ nonem_clips) ->
   main_eval score em_clips nonem_clips = ([], Some (Propagated IndexError))) /\
  (fst (main_eval score em_clips nonem_clips) <> [] <->
   Forall (fun clip => N <= length clip) (em_clips ++ nonem_clips)).
Proof.
  split; [apply main_eval_short|].
  destruct (Forall_Exists_dec (fun clip : list feature => N <= length clip)
              (fun clip => le_dec N (length clip)) (em_clips ++ nonem_clips))
    as [Hall|Hex].
  - split; [intros _; exact Hall|]. intros _.
    rewrite (main_eval_long score _ _ Hall).
    destruct (report_starts
                (mkTally (Z.of_nat (length em_clips)) (hits score 1 em_clips)
                   (Z.of_nat (length nonem_clips)) (hits score 0 nonem_clips)))
      as [rest ->].
    discriminate.
  - assert (Hshort : Exists (fun clip : list feature => length clip < N)
                       (em_clips ++ nonem_clips)).
    { eapply Exists_impl; [|exact Hex]. cbv beta. intros; lia. }
    rewrite (main_eval_short score _ _ Hshort). cbn [fst]. split; [congruence|].
    intros Hall. exfalso. apply Exists_exists in Hshort.
    destruct Hshort as (clip & Hin & Hlt).
    rewrite Forall_forall in Hall. specialize (Hall clip Hin). lia.
Qed.

Lemma main_eval_all_or_nothing_witness :
  main_eval scripted [repeat (9 # 10)%Q 10; repeat (9 # 10)%Q 30]
                     [repeat (1 # 10)%Q 9]
  = ([], Some (Propagated IndexError)).
Proof.
  apply (proj1 (main_eval_all_or_nothing scripted
           [repeat (9 # 10)%Q 10; repeat (9 # 10)%Q 30] [repeat (1 # 10)%Q 9])).
  apply Exists_app. right. constructor. simpl; unfold N; lia.
Defined.

(** X12. Whatever the test clips and the scorer, every accuracy, precision
    and recall that the evaluation prints lies between 0 and 1. *)
Theorem main_eval_metrics_in_unit (feature : Type) (score : feature -> Q)
    (em_clips nonem_clips : list (list feature)) :
  Forall metric_in_unit (fst (main_eval score em_clips nonem_clips)).
Proof.
  destruct (Forall_Exists_dec (fun clip : list feature => N <= length clip)
              (fun clip => le_dec N (length clip)) (em_clips ++ nonem_clips))
    as [Hall|Hex].
  - rewrite (main_eval_long score _ _ Hall).
    apply report_in_unit; cbn [correct_em tot_em correct_nonem tot_nonem];
      apply hits_bounds.
  - rewrite main_eval_short; [constructor|].
    eapply Exists_impl; [|exact Hex]. cbv beta. intros; lia.
Qed.

(** The report on a tally, by the first denominator that is zero. *)
Lemma report_cases (t : tally) :
  let out := [CountsLine t; HeaderLine] in
  let den_a := (tot_em t + tot_nonem t)%Z in
  let den_p := (tot_nonem t - correct_nonem t + correct_em t)%Z in
  (den_a = 0%Z -> report t = (out, Some ZeroDivisionError)) /\
  (den_a <> 0%Z -> den_p = 0%Z ->
     exists a, report t = (out ++ [AccuracyLine a], Some ZeroDivisionError)) /\
  (den_a <> 0%Z -> den_p <> 0%Z -> tot_em t = 0%Z ->
     exists a p, report t = (out ++ [AccuracyLine a] ++ [PrecisionLine p],
                             Some ZeroDivisionError)) /\
  (den_a <> 0%Z -> den_p <> 0%Z -> tot_em t <> 0%Z ->
     exists a p r, report t = (out ++ [AccuracyLine a] ++ [PrecisionLine p]
                                   ++ [RecallLine r], None)).
Proof.
  cbv zeta. unfold report, float_div.
  destruct (Z.eqb_spec (tot_em t + tot_nonem t) 0) as [Ea|Ea];
    [repeat split; intros; try reflexivity; contradiction|].
  destruct (Z.eqb_spec (tot_nonem t - correct_nonem t + correct_em t) 0)
    as [Ep|Ep];
    [repeat split; intros; try contradiction; eexists; reflexivity|].
  destruct (Z.eqb_spec (tot_em t) 0) as [Er|Er];
    repeat split; intros; try contradiction; repeat eexists; reflexivity.
Qed.

(** X13. On test clips of at least [N] frames each, the report ends
    normally exactly when there is an em test file and some test clip is
    labelled em; otherwise it stops with [ZeroDivisionError]: after the
    header when there is no test file at all, after the accuracy line when
    no clip is labelled em (the precision has a zero denominator), and
    after the precision line when only the em files are missing. *)
Theorem main_eval_zero_division (feature : Type) (score : feature -> Q)
    (em_clips nonem_clips : list (list feature)) :
  Forall (fun clip => N <= length clip) (em_clips ++ nonem_clips) ->
  let run := main_eval score em_clips nonem_clips in
  let some_em_label :=
    exists clip, In clip (em_clips ++ nonem_clips) /\
                 predict_output score clip = Ok 1%Z in
  (snd run = None <-> em_clips <> [] /\ some_em_label) /\
  (snd run = None \/ snd run = Some ZeroDivisionError) /\
  (em_clips ++ nonem_clips = [] -> length (fst run) = 2) /\
  (em_clips ++ nonem_clips <> [] -> ~ some_em_label ->
     exists a, fst run = [CountsLine (mkTally (Z.of_nat (length em_clips)) 0
                                       (Z.of_nat (length nonem_clips))
                                       (Z.of_nat (length nonem_clips)));
                          HeaderLine; AccuracyLine a] /\
               snd run = Some ZeroDivisionError) /\
  (em_clips = [] -> some_em_label ->
     exists a p, fst run = [CountsLine (mkTally 0 0
                                         (Z.of_nat (length nonem_clips))
                                         (hits score 0 nonem_clips));
                            HeaderLine; AccuracyLine a; PrecisionLine p] /\
                 snd run = Some ZeroDivisionError).
Proof.
  intros Hall run some_em_label. subst run.
  rewrite (main_eval_long score _ _ Hall).
  set (t := mkTally _ _ _ _).
  pose proof (report_cases t) as Hcases. cbv zeta in Hcases.
  cbn [tot_em tot_nonem correct_em correct_nonem t] in Hcases.
  pose proof Hall as Hall'. apply Forall_app in Hall'. destruct Hall' as [Hem Hnon].
  pose proof (hits_complement score Hnon) as Hcompl.
  pose proof (hits_bounds score 1 em_clips) as Hb1.
  pose proof (hits_bounds score 1 nonem_clips) as Hb2.
  assert (Hsome : some_em_label <->
                  (0 < hits score 1 em_clips + hits score 1 nonem_clips)%Z).
  { unfold some_em_label. rewrite <- hits_app. symmetry. apply hits_positive. }
  assert (Hlen : em_clips = [] <-> Z.of_nat (length em_clips) = 0%Z).
  { destruct em_clips; cbn [length]; split; intros; try easy; lia. }
  assert (Hlen2 : em_clips ++ nonem_clips = [] <->
                  (Z.of_nat (length em_clips)
                   + Z.of_nat (length nonem_clips))%Z = 0%Z).
  { destruct em_clips, nonem_clips; cbn [length app]; split; intros; try easy; lia. }
  destruct Hcases as (H0 & Ha & Hp & Hr).
  destruct (Z.eq_dec (Z.of_nat (length em_clips)
                      + Z.of_nat (length nonem_clips)) 0) as [Ea|Ea].
  { rewrite (H0 Ea). cbn [fst snd]. split; [|split; [|split; [|split]]].
    - split; [discriminate|]. intros [Hne _]. exfalso. apply Hne, Hlen. lia.
    - now right.
    - reflexivity.
    - intros Hne. exfalso. apply Hne, Hlen2, Ea.
    - intros _ Hs. apply Hsome in Hs. exfalso. lia. }
  destruct (Z.eq_dec (Z.of_nat (length nonem_clips) - hits score 0 nonem_clips
                      + hits score 1 em_clips) 0) as [Ep|Ep].
  { destruct (Ha Ea Ep) as [a ->]. cbn [fst snd app].
    split; [|split; [|split; [|split]]].
    - split; [discriminate|]. intros [_ Hs]. apply Hsome in Hs. exfalso. lia.
    - now right.
    - intros E. apply Hlen2 in E. contradiction.
    - intros _ _. exists a. split; [|reflexivity]. subst t.
      replace (hits score 1 em_clips) with 0%Z by lia.
      replace (hits score 0 nonem_clips)
        with (Z.of_nat (length nonem_clips)) by lia.
      reflexivity.
    - intros _ Hs. apply Hsome in Hs. exfalso. lia. }
  destruct (Z.eq_dec (Z.of_nat (length em_clips)) 0) as [Er|Er].
  { destruct (Hp Ea Ep Er) as (a & p & ->). cbn [fst snd app].
    split; [|split; [|split; [|split]]].
    - split; [discriminate|]. intros [Hne _]. exfalso. apply Hne, Hlen, Er.
    - now right.
    - intros E. apply Hlen2 in E. contradiction.
    - intros _ Hns. exfalso. apply Hns, Hsome. lia.
    - intros _ _. exists a, p. split; [|reflexivity]. subst t.
      replace (hits score 1 em_clips) with 0%Z by lia.
      now rewrite Er. }
  destruct (Hr Ea Ep Er) as (a & p & r & ->). cbn [fst snd app].
  split; [|split; [|split; [|split]]].
  - split; [|reflexivity]. intros _. split.
    + intros E. apply Hlen in E. contradiction.
    + apply Hsome. lia.
  - now left.
  - intros E. apply Hlen2 in E. contradiction.
  - intros _ Hns. exfalso. apply Hns, Hsome. lia.
  - intros E. apply Hlen in E. contradiction.
Qed.

Lemma main_eval_zero_division_witness :
  exists a,
    fst (main_eval scripted [repeat (1 # 10)%Q 10] [repeat (1 # 10)%Q 12])
    = [CountsLine (mkTally 1 0 1 1); HeaderLine; AccuracyLine a] /\
    snd (main_eval scripted [repeat (1 # 10)%Q 10] [repeat (1 # 10)%Q 12])
    = Some ZeroDivisionError.
Proof.
  apply (@main_eval_zero_division Q scripted
           [repeat (1 # 10)%Q 10] [repeat (1 # 10)%Q 12]).
  - repeat constructor; simpl; unfold N; lia.
  - discriminate.
  - intros (clip & [<- | [<- | []]] & H); vm_compute in H; discriminate.
Defined.

(** ** The reach of one frame *)

(** X14. A frame reaches only the [N] windows that contain it: if two clips
    of the same length differ at most in frame [i], their running decisions
    agree at every position [j] with [j + N <= i] or [i < j]. *)
Theorem decisions_local (feature : Type) (score : feature -> Q)
    (l l' : list feature) (i : nat) :
  N <= length l ->
  length l = length l' ->
  (forall k, k <> i -> nth_error l k = nth_error l' k) ->
  exists ds ds',
    predict_probability score l = Ok ds /\
    predict_probability score l' = Ok ds' /\
    length ds = length ds' /\
    forall j, j + N <= i \/ i < j -> nth_error ds j = nth_error ds' j.
Proof.
  intros Hlen Hsame Hframes.
  rewrite !predict_probability_spec by lia. rewrite <- Hsame.
  eexists; eexists. split; [reflexivity|]. split; [reflexivity|].
  split; [now rewrite !length_map|]. intros j Hj.
  rewrite !nth_error_map. destruct (nth_error (seq 0 _) j) as [k|] eqn:Ek;
    [|reflexivity].
  cbn [option_map]. f_equal. f_equal.
  rewrite nth_error_seq in Ek.
  destruct (Nat.ltb j (length l - N + 1)); [|discriminate].
  injection Ek as <-. cbn [Nat.add].
  unfold window. f_equal. apply nth_error_ext. intros n.
  rewrite !nth_error_firstn, !nth_error_skipn.
  destruct (Nat.ltb_spec n N); [|reflexivity].
  apply Hframes. lia.
Qed.

Lemma decisions_local_witness :
  exists ds ds',
    predict_probability scripted (repeat (9 # 10)%Q 13) = Ok ds /\
    predict_probability scripted
      (repeat (9 # 10)%Q 12 ++ [(0 # 1)%Q]) = Ok ds' /\
    length ds = length ds' /\
    forall j, j + N <= 12 \/ 12 < j -> nth_error ds j = nth_error ds' j.
Proof.
  apply (@decisions_local Q scripted (repeat (9 # 10)%Q 13)
           (repeat (9 # 10)%Q 12 ++ [(0 # 1)%Q]) 12).
  - simpl; unfold N; lia.
  - reflexivity.
  - intros k Hk. do 12 (destruct k as [|k]; [reflexivity|]).
    destruct k as [|k]; [lia|]. reflexivity.
Defined.

(** * The pipeline in binary32 arithmetic *)

(** ** The loops on binary32 scores *)

Section Float32Facts.

Variable feature : Type.
Variable score : feature -> spec_float.
Implicit Types (l : list feature) (st : Float32.locals).

Lemma f32_fill_spec l k i st :
  i + k <= length l ->
  for_range (Float32.fill_body score l) i k st =
  Ok (Float32.mkLocals
        (Float32.prob_list st ++ map score (firstn k (skipn i l)))
        (Float32.class_list st)).
Proof.
  revert i st; induction k as [|k IH]; intros i st H; cbn [for_range].
  - cbn [firstn map]. rewrite app_nil_r. now destruct st.
  - unfold Float32.fill_body at 1, getitem.
    destruct (@nth_error_in_range _ l i ltac:(lia)) as [x Hx].
    rewrite Hx; cbn [bind]. rewrite IH by lia.
    cbn [Float32.prob_list Float32.class_list].
    rewrite (skipn_cons_nth _ _ Hx); cbn [firstn map].
    now rewrite <- app_assoc.
Qed.

Lemma f32_fill_fails l k i st :
  0 < k -> length l < i + k ->
  for_range (Float32.fill_body score l) i k st = Raise IndexError.
Proof.
  revert i st; induction k as [|k IH]; intros i st Hk H; cbn [for_range]; [lia|].
  unfold Float32.fill_body at 1, getitem.
  destruct (nth_error l i) as [x|] eqn:Hx; cbn [bind]; [|reflexivity].
  assert (i < length l) by (apply nth_error_Some; congruence).
  apply IH; lia.
Qed.

Lemma f32_threshold_spec pl cl :
  Float32.threshold (Float32.mkLocals pl cl) =
  Float32.mkLocals pl (cl ++ [Float32.label_of pl]).
Proof.
  unfold Float32.threshold, Float32.label_of; cbn [Float32.prob_list Float32.class_list].
  now destruct (Float32.gt (Float32.np_mean pl) Float32.th).
Qed.

Lemma f32_window_length l j :
  N + j <= length l -> length (Float32.window score l j) = N.
Proof.
  intros H. unfold Float32.window.
  rewrite length_map, length_firstn, length_skipn. lia.
Qed.

Lemma f32_slide_spec l k j cl :
  N + j + k <= length l ->
  for_range (Float32.slide_body score l) (N + j) k
    (Float32.mkLocals (Float32.window score l j) cl) =
  Ok (Float32.mkLocals (Float32.window score l (j + k))
        (cl ++ map (fun i => Float32.label_of (Float32.window score l i))
                   (seq (S j) k))).
Proof.
  revert j cl; induction k as [|k IH]; intros j cl H; cbn [for_range seq map].
  - now rewrite Nat.add_0_r, app_nil_r.
  - unfold Float32.slide_body at 1, getitem;
      cbn [Float32.prob_list Float32.class_list].
    destruct (@nth_error_in_range _ l (N + j) ltac:(lia)) as [x Hx].
    assert (Hw : tl (Float32.window score l j) ++ [score x]
                 = Float32.window score l (S j)).
    { unfold Float32.window, N.
      rewrite <- (@window_shift _ l 9 j x); [|unfold N in *; lia|exact Hx].
      rewrite map_app. now destruct (firstn 10 (skipn j l)). }
    pose proof (@f32_window_length l j ltac:(lia)) as Hlen.
    destruct (Float32.window score l j) as [|p rest] eqn:Ew;
      [discriminate Hlen|].
    cbn [pop0 bind tl] in *. rewrite Hx; cbn [bind].
    rewrite Hw, f32_threshold_spec.
    replace (S (N + j)) with (N + S j) by lia.
    rewrite IH by lia. rewrite <- app_assoc; cbn [app].
    now replace (S j + k) with (j + S k) by lia.
Qed.

(** On binary32 scores too, the decisions are one label per window. *)
Lemma f32_predict_probability_spec l :
  N <= length l ->
  Float32.predict_probability score l =
  Ok (map (fun j => Float32.label_of (Float32.window score l j))
          (seq 0 (length l - N + 1))).
Proof.
  intros H. unfold Float32.predict_probability.
  rewrite f32_fill_spec by lia.
  cbn [bind Float32.init Float32.prob_list Float32.class_list app skipn].
  fold (Float32.window score l 0). rewrite f32_threshold_spec.
  change N with (N + 0) at 1. rewrite f32_slide_spec by lia.
  cbn [bind Float32.class_list]. rewrite Nat.add_1_r. reflexivity.
Qed.

Lemma f32_predict_probability_short l :
  length l < N -> Float32.predict_probability score l = Raise IndexError.
Proof.
  intros H. unfold Float32.predict_probability.
  now rewrite f32_fill_fails by (unfold N in *; lia).
Qed.

Lemma f32_run_upto_steady l k :
  N <= k -> k <= length l ->
  Float32.run_upto score l k =
  Ok (Float32.mkLocals (Float32.window score l (k - N))
        (map (fun j => Float32.label_of (Float32.window score l j))
             (seq 0 (k - N + 1)))).
Proof.
  intros Hk Hl. unfold Float32.run_upto.
  destruct (Nat.ltb_spec k N) as [H|_]; [lia|].
  rewrite f32_fill_spec by lia.
  cbn [bind Float32.init Float32.prob_list Float32.class_list app skipn].
  fold (Float32.window score l 0). rewrite f32_threshold_spec.
  change N with (N + 0) at 1. rewrite f32_slide_spec by lia.
  rewrite Nat.add_1_r. reflexivity.
Qed.

(** Cutting the binary32 run after [k >= N] pushes and running the rest of
    the second loop is the whole run. *)
Lemma f32_predict_probability_cut l k :
  N <= k -> k <= length l ->
  Float32.predict_probability score l =
  (st <- Float32.run_upto score l k ;;
   st <- for_range (Float32.slide_body score l) k (length l - k) st ;;
   Ok (Float32.class_list st)).
Proof.
  intros Hk Hl. unfold Float32.predict_probability, Float32.run_upto.
  destruct (Nat.ltb_spec k N) as [H|_]; [lia|].
  destruct (for_range (Float32.fill_body score l) 0 N Float32.init)
    as [st|e]; cbn [bind]; [|reflexivity].
  replace (length l - N) with ((k - N) + (length l - k)) by lia.
  rewrite for_range_app. replace (N + (k - N)) with k by lia.
  now destruct (for_range (Float32.slide_body score l) N (k - N)
                  (Float32.threshold st)).
Qed.

End Float32Facts.

(** ** The running label (C2) *)

Lemma f32_label_of_cases (pl : list spec_float) :
  (Float32.label_of pl = 1%Z <->
   SFcompare (Float32.np_mean pl) Float32.th = Some Gt) /\
  (Float32.label_of pl = 0%Z <->
   SFcompare (Float32.np_mean pl) Float32.th <> Some Gt).
Proof.
  unfold Float32.label_of, Float32.gt.
  destruct (SFcompare (Float32.np_mean pl) Float32.th) as [[| |]|];
    split; split; intros H; try reflexivity; try discriminate; congruence.
Qed.

(** C2. Once the window is full, at every push the label just appended to
    [class_list] is [1] exactly when the mean of [prob_list], the binary32
    value that [np.mean] returns, compares strictly greater than
    [th = 0.5], and [0] otherwise; a mean equal to [th] gives [0].  Ten
    pushes of probability [0.5] have mean exactly [0.5] and give the single
    decision [0]; ten pushes of [0.9] give the single decision [1].  The
    mean is the one numpy computes: five [0.6] and five [0.4] have the
    computed mean [0.5] and the decision [0], five [0.7] and five [0.3] the
    computed mean [0.5 + 2^-24] and the decision [1]. *)
Theorem running_label_float32 (feature : Type) (score : feature -> spec_float)
    (l : list feature) (k : nat) :
  N <= k -> k <= length l ->
  (exists st d,
     Float32.run_upto score l k = Ok st /\
     length (Float32.prob_list st) = N /\
     length (Float32.class_list st) = k - N + 1 /\
     nth_error (Float32.class_list st) (k - N) = Some d /\
     (d = 1%Z <->
      SFcompare (Float32.np_mean (Float32.prob_list st)) Float32.th = Some Gt) /\
     (d = 0%Z <->
      SFcompare (Float32.np_mean (Float32.prob_list st)) Float32.th <> Some Gt) /\
     (SFcompare (Float32.np_mean (Float32.prob_list st)) Float32.th = Some Eq ->
      d = 0%Z)) /\
  Float32.np_mean (repeat Float32.th N) = Float32.th /\
  Float32.predict_probability Float32.scripted (repeat Float32.th N)
    = Ok [0%Z] /\
  Float32.predict_probability Float32.scripted (repeat (Float32.dec 9 10) N)
    = Ok [1%Z] /\
  (Float32.np_mean (repeat (Float32.dec 6 10) 5 ++ repeat (Float32.dec 4 10) 5)
     = Float32.th /\
   Float32.predict_probability Float32.scripted
     (repeat (Float32.dec 6 10) 5 ++ repeat (Float32.dec 4 10) 5) = Ok [0%Z]) /\
  (Float32.np_mean (repeat (Float32.dec 7 10) 5 ++ repeat (Float32.dec 3 10) 5)
     = S754_finite false 8388609 (-24) /\
   Float32.predict_probability Float32.scripted
     (repeat (Float32.dec 7 10) 5 ++ repeat (Float32.dec 3 10) 5) = Ok [1%Z]).
Proof.
  intros Hk Hl.
  split; [|repeat split; vm_compute; reflexivity].
  rewrite f32_run_upto_steady by assumption.
  destruct (f32_label_of_cases (Float32.window score l (k - N))) as [H1 H0].
  eexists. exists (Float32.label_of (Float32.window score l (k - N))).
  split; [reflexivity|]. cbn [Float32.prob_list Float32.class_list].
  split; [apply f32_window_length; lia|].
  split; [now rewrite length_map, length_seq|].
  split.
  { rewrite Nat.add_1_r, seq_S, map_app, nth_error_app2;
      rewrite length_map, length_seq; [|lia].
    now rewrite Nat.sub_diag. }
  split; [exact H1|]. split; [exact H0|].
  intros E. apply H0. rewrite E. discriminate.
Qed.

Lemma running_label_float32_witness :
  exists st d,
    Float32.run_upto Float32.scripted
      (repeat (Float32.dec 7 10) 5 ++ repeat (Float32.dec 3 10) 6) 11 = Ok st /\
    nth_error (Float32.class_list st) 1 = Some d /\
    (d = 1%Z <->
     SFcompare (Float32.np_mean (Float32.prob_list st)) Float32.th = Some Gt).
Proof.
  destruct (@running_label_float32 spec_float Float32.scripted
              (repeat (Float32.dec 7 10) 5 ++ repeat (Float32.dec 3 10) 6) 11)
    as [(st & d & Hrun & _ & _ & Hd & H1 & _) _].
  - unfold N; lia.
  - simpl; lia.
  - exists st, d. repeat split; try assumption; apply H1.
Defined.

(** The mean that decides is the rounded one.  Five scores [0.7] and five
    scores [0.3], as binary32 values, have an exact mean of [1/2], for which
    exact averaging would label the window [0]; numpy's sum rounds up, the
    computed mean is [0.5 + 2^-24], and the label is [1].  Five [0.6] and
    five [0.4] have an exact mean above [1/2], the computed mean is exactly
    [0.5], and the label is [0]. *)
Lemma computed_mean_is_rounded :
  let w73 := repeat (Float32.dec 7 10) 5 ++ repeat (Float32.dec 3 10) 5 in
  let w64 := repeat (Float32.dec 6 10) 5 ++ repeat (Float32.dec 4 10) 5 in
  (exists m, np_mean (map Float32.to_Q w73) = Some m /\ (m == th)%Q) /\
  Float32.np_mean w73 = S754_finite false 8388609 (-24) /\
  Float32.predict_probability Float32.scripted w73 = Ok [1%Z] /\
  predict_probability scripted (map Float32.to_Q w73) = Ok [0%Z] /\
  (exists m, np_mean (map Float32.to_Q w64) = Some m /\ (th < m)%Q) /\
  Float32.np_mean w64 = Float32.th /\
  Float32.predict_probability Float32.scripted w64 = Ok [0%Z] /\
  predict_probability scripted (map Float32.to_Q w64) = Ok [1%Z].
Proof.
  cbv zeta. repeat split; try (vm_compute; reflexivity).
  - eexists. split; [reflexivity|]. vm_compute. reflexivity.
  - eexists. split; [reflexivity|]. vm_compute. reflexivity.
Qed.

(** ** The clip label by windows (X5) *)

(** X5. End to end, in the arithmetic of the script: [predict_output]
    returns [1] exactly when the clip has at least [N] frames and more than
    half of its [len - N + 1] windows have a binary32 mean, as [np.mean]
    computes it, above [th]; it returns [0] exactly when the clip has at
    least [N] frames and at most half of its windows do. *)
Theorem predict_output_majority_float32 (feature : Type)
    (score : feature -> spec_float) (l : list feature) :
  (Float32.predict_output score l = Ok 1%Z <->
   N <= length l /\ length l - N + 1 < 2 * Float32.siren_windows score l) /\
  (Float32.predict_output score l = Ok 0%Z <->
   N <= length l /\ 2 * Float32.siren_windows score l <= length l - N + 1).
Proof.
  destruct (Nat.lt_ge_cases (length l) N) as [Hlt|Hge].
  - unfold Float32.predict_output.
    rewrite f32_predict_probability_short by assumption.
    cbn [bind]. split; split; intros H; try discriminate; lia.
  - unfold Float32.predict_output.
    rewrite f32_predict_probability_spec by assumption.
    cbn [bind]. unfold Float32.siren_windows.
    set (js := seq 0 (length l - N + 1)).
    assert (Hjs : length js = length l - N + 1) by apply length_seq.
    assert (Hbin : Forall (fun d => d = 0%Z \/ d = 1%Z)
                     (map (fun j => Float32.label_of (Float32.window score l j))
                          js)).
    { apply Forall_map, Forall_forall. intros j _. unfold Float32.label_of.
      destruct (Float32.gt _ _); auto. }
    assert (Hne : map (fun j => Float32.label_of (Float32.window score l j)) js
                  <> []).
    { intros E. apply (f_equal (@length Z)) in E.
      rewrite length_map, Hjs in E. simpl in E. lia. }
    destruct (clip_vote_count Hne Hbin) as [H1 H0].
    unfold Float32.label_of in H1, H0 at 2.
    rewrite count_ones_filter, length_map, Hjs in H1, H0.
    split; split.
    + intros E. injection E as E. apply H1 in E. tauto.
    + intros [_ E]. f_equal. now apply H1.
    + intros E. injection E as E. apply H0 in E. tauto.
    + intros [_ E]. f_equal. now apply H0.
Qed.

Lemma predict_output_majority_float32_witness :
  Float32.predict_output Float32.scripted
    (repeat (Float32.dec 6 10) 5 ++ repeat (Float32.dec 4 10) 5) = Ok 0%Z /\
  Float32.predict_output Float32.scripted
    (repeat (Float32.dec 7 10) 5 ++ repeat (Float32.dec 3 10) 5) = Ok 1%Z.
Proof.
  split.
  - apply (proj2 (predict_output_majority_float32 Float32.scripted
                    (repeat (Float32.dec 6 10) 5 ++ repeat (Float32.dec 4 10) 5))).
    split; [simpl; unfold N; lia|]. vm_compute. lia.
  - apply (proj1 (predict_output_majority_float32 Float32.scripted
                    (repeat (Float32.dec 7 10) 5 ++ repeat (Float32.dec 3 10) 5))).
    split; [simpl; unfold N; lia|]. vm_compute. lia.
Defined.


(** * The band-pass filter on Python floats (C5) *)

(** C5 as the spec words it does not hold: the function has no check of its
    own.  With a filter library that accepts what it is given, the inverted
    band 1500/500 Hz at 8000 Hz (normalised cutoffs 0.375 and 0.125) and the
    band 5000/6000 Hz above the Nyquist rate (normalised cutoffs 1.25 and
    1.5) are both handed over as they are and the signal is filtered. *)
Lemma filter_runs_on_invalid_band :
  let data := [Float64.of_Z 1; Float64.of_Z 2; Float64.of_Z 3] in
  let nyq := SFmul Float64.prec Float64.emax (Float64.dec 1 2)
               (Float64.of_Z 8000) in
  Float64.truediv (Float64.of_Z 1500) nyq = Done (Float64.dec 3 8) /\
  Float64.truediv (Float64.of_Z 500) nyq = Done (Float64.dec 1 8) /\
  SFcompare (Float64.dec 3 8) (Float64.dec 1 8) = Some Gt /\
  Float64.butter_bandpass_filter Float64.accepting_butter
    Float64.passing_lfilter data
    (Float64.of_Z 1500) (Float64.of_Z 500) (Float64.of_Z 8000) 5 = Done data /\
  Float64.truediv (Float64.of_Z 5000) nyq = Done (Float64.dec 5 4) /\
  Float64.truediv (Float64.of_Z 6000) nyq = Done (Float64.dec 3 2) /\
  SFcompare (Float64.dec 5 4) (Float64.of_Z 1) = Some Gt /\
  Float64.butter_bandpass_filter Float64.accepting_butter
    Float64.passing_lfilter data
    (Float64.of_Z 5000) (Float64.of_Z 6000) (Float64.of_Z 8000) 5 = Done data.
Proof. cbv zeta. repeat split; vm_compute; reflexivity. Qed.

(** C5, as the code has it.  [butter_bandpass_filter] validates nothing
    itself: it divides the cutoffs by the Nyquist rate [0.5 * fs] and hands
    the quotients and the order to [butter].  It raises [ZeroDivisionError]
    when [0.5 * fs] is a zero; otherwise its result is that of [butter]
    followed by [lfilter], so it returns the filtered signal whenever both
    accept, and an exception it raises is the one [butter] or [lfilter]
    raised. *)
Theorem butter_bandpass_filter_delegates (signal coefficients : Type)
    (butter : nat -> spec_float -> spec_float -> outcome coefficients)
    (lfilter : coefficients -> signal -> outcome signal)
    (data : signal) (lowcut highcut fs : spec_float) (order : nat) :
  let nyq := SFmul Float64.prec Float64.emax (Float64.dec 1 2) fs in
  let low := SFdiv Float64.prec Float64.emax lowcut nyq in
  let high := SFdiv Float64.prec Float64.emax highcut nyq in
  let run := Float64.butter_bandpass_filter butter lfilter data
               lowcut highcut fs order in
  (Float64.is_zero nyq = true -> run = Failed ZeroDivisionError) /\
  (Float64.is_zero nyq = false ->
     run = (ba <~ butter order low high ;; lfilter ba data)) /\
  (Float64.is_zero nyq = false ->
     forall ba y, butter order low high = Done ba ->
                  lfilter ba data = Done y -> run = Done y) /\
  (forall e, run = Failed e ->
     (Float64.is_zero nyq = true /\ e = ZeroDivisionError) \/
     (Float64.is_zero nyq = false /\
      (butter order low high = Failed e \/
       exists ba, butter order low high = Done ba /\
                  lfilter ba data = Failed e))).
Proof.
  cbv zeta. unfold Float64.butter_bandpass_filter, Float64.truediv.
  destruct (Float64.is_zero
              (SFmul Float64.prec Float64.emax (Float64.dec 1 2) fs)) eqn:Ez;
    cbn [and_then].
  - split; [reflexivity|]. split; [discriminate|]. split; [discriminate|].
    intros e E. left. split; [reflexivity|]. congruence.
  - split; [discriminate|]. split; [reflexivity|]. split.
    + intros _ ba y Hb Hl. rewrite Hb. cbn [and_then]. exact Hl.
    + intros e E. right. split; [reflexivity|].
      destruct (butter order _ _) as [ba|e'] eqn:Hb; cbn [and_then] in E.
      * right. exists ba. split; [reflexivity|exact E].
      * left. congruence.
Qed.

Lemma butter_bandpass_filter_delegates_witness :
  Float64.butter_bandpass_filter Float64.accepting_butter
    Float64.passing_lfilter [Float64.of_Z 1]
    (Float64.of_Z 500) (Float64.of_Z 1500) (Float64.of_Z 0) 5
  = Failed ZeroDivisionError /\
  Float64.butter_bandpass_filter Float64.accepting_butter
    Float64.passing_lfilter [Float64.of_Z 1]
    (Float64.of_Z 500) (Float64.of_Z 1500)
    (S754_finite false 1 (-1074)) 5
  = Failed ZeroDivisionError /\
  Float64.butter_bandpass_filter Float64.accepting_butter
    Float64.passing_lfilter [Float64.of_Z 1]
    (Float64.of_Z 500) (Float64.of_Z 1500) (Float64.of_Z 8000) 5
  = Done [Float64.of_Z 1].
Proof.
  split; [|split].
  - apply (butter_bandpass_filter_delegates Float64.accepting_butter
             Float64.passing_lfilter [Float64.of_Z 1]
             (Float64.of_Z 500) (Float64.of_Z 1500) (Float64.of_Z 0) 5).
    reflexivity.
  - apply (butter_bandpass_filter_delegates Float64.accepting_butter
             Float64.passing_lfilter [Float64.of_Z 1]
             (Float64.of_Z 500) (Float64.of_Z 1500)
             (S754_finite false 1 (-1074)) 5).
    vm_compute. reflexivity.
  - eapply (butter_bandpass_filter_delegates Float64.accepting_butter
              Float64.passing_lfilter [Float64.of_Z 1]
              (Float64.of_Z 500) (Float64.of_Z 1500) (Float64.of_Z 8000) 5).
    + vm_compute. reflexivity.
    + reflexivity.
    + reflexivity.
Defined.
